(** * AgroPro: the retrieval-augmented chat assistant of [app.py]

    A shallow embedding of the logic of [app.py]: the bounded
    [ConversationBuffer], the prompt assembly and reply normalisation of
    [get_gemini_response], its wrapper [safe_get_gemini_response], the
    ingestion pipeline [process_document], the upload and chat branches of
    [chat_interface], persistence ([save_vectorstore], [load_vectorstore])
    and the housekeeping sweep [cleanup_old_vectorstores].

    Conventions.
    - A Python [str] is a [string]; Python [int]s are in [Z].
    - Python exceptions are modelled by the type [exn]; a call that may
      raise returns an [outcome].  Only subclasses of [Exception] are
      modelled (the handlers of the program are [except Exception] and
      [except ImportError]).
    - Effects (the Streamlit widgets, the session state, temporary files,
      the working directory, the calls to the embedding, index and LLM
      back ends) act on a [World]; effectful functions live in the monad
      [M], state passing with exceptions.
    - The back ends are not part of the program: they are the fields of an
      environment [Env]. *)

From Stdlib Require Import ZArith Lia Ascii String.
From stdpp Require Import base list strings gmap.

Local Open Scope Z_scope.

(** [simpl] unfolds the append of strings on a literal. *)
#[local] Arguments String.append !s1 s2 : simpl nomatch.

(** ** Conversation buffer *)

(** A buffer entry, the dict [{"role": role, "content": content}]. *)
Record Turn := mkTurn { role : string; content : string }.

(** [class ConversationBuffer]: the list [self.buffer] and [self.max_turns]. *)
Record ConversationBuffer := mkBuffer {
  buffer : list Turn;
  max_turns : Z
}.

(** [ConversationBuffer(max_turns)], with [max_turns=5] by default. *)
Definition new_buffer (m : Z) : ConversationBuffer :=
  {| buffer := []; max_turns := m |}.

Definition default_max_turns : Z := 5.

(** The slice [l[k:]] of Python: a negative [k] counts from the end and is
    clamped at the start of the list, a non-negative one is clamped at its
    end. *)
Definition slice_from {A} (k : Z) (l : list A) : list A :=
  let n := Z.of_nat (length l) in
  let start := if k <? 0 then Z.max (n + k) 0 else Z.min k n in
  drop (Z.to_nat start) l.

(** The last [n] elements of a list. *)
Definition lastn {A} (n : nat) (l : list A) : list A :=
  drop (length l - n) l.

(** The slice [l[i:j]] for indices [0 <= i <= j]. *)
Definition slice {A} (i j : nat) (l : list A) : list A :=
  take (j - i) (drop i l).

(** [ConversationBuffer.add_message]. *)
Definition add_message (cb : ConversationBuffer) (r c : string)
  : ConversationBuffer :=
  let appended := buffer cb ++ [mkTurn r c] in
  if Z.of_nat (length appended) >? max_turns cb * 2
  then {| buffer := slice_from (- max_turns cb * 2) appended;
          max_turns := max_turns cb |}
  else {| buffer := appended; max_turns := max_turns cb |}.

(** A sequence of [add_message] calls, oldest first. *)
Definition add_messages (cb : ConversationBuffer) (ts : list Turn)
  : ConversationBuffer :=
  foldl (fun b t => add_message b (role t) (content t)) cb ts.

(** The line [f"{msg['role']}: {msg['content']}"]. *)
Definition render_turn (t : Turn) : string :=
  role t +:+ ": " +:+ content t.

Definition newline : string := String "010"%char EmptyString.

(** [ConversationBuffer.get_context]. *)
Definition get_context (cb : ConversationBuffer) : string :=
  String.concat newline (map render_turn (buffer cb)).

(** The rendering as the specification words it: one line per retained
    turn, oldest first, a newline between two lines. *)
Fixpoint render_lines (ts : list Turn) : string :=
  match ts with
  | [] => ""
  | t :: rest =>
      match rest with
      | [] => role t +:+ ": " +:+ content t
      | _ :: _ => role t +:+ ": " +:+ content t +:+ newline +:+ render_lines rest
      end
  end.

(** ** Exceptions, the world and the monad of effects *)

(** The exceptions of the program, all of them subclasses of [Exception].
    [ImportError] has a handler of its own in [process_document], and
    [AttributeError] is the one that [hasattr] absorbs. *)
Inductive exn :=
| ImportError (msg : string)
| AttributeError (msg : string)
| OtherError (msg : string).

(** [str(e)]. *)
Definition str_exn (e : exn) : string :=
  match e with ImportError m | AttributeError m | OtherError m => m end.

(** The result of a call that may raise. *)
Inductive outcome (A : Type) :=
| Returns (a : A)
| Raises (e : exn).
Arguments Returns {A} a.
Arguments Raises {A} e.

(** A text embedding computed by the embedding back end. *)
Definition embedding := list Z.

(** A FAISS index as the program sees it: the chunks it holds, in insertion
    order, and the vector stored for them. *)
Record VectorStore := mkStore {
  store_texts : list string;
  store_vectors : list embedding
}.

(** A retrieved document; the program reads only [page_content]. *)
Record Document := mkDoc { page_content : string }.

(** The widgets the program writes to. *)
Inductive ui_event :=
| st_error (msg : string)
| st_warning (msg : string)
| st_info (msg : string)
| st_success (msg : string)
| st_code (msg : string)
| st_chat_message (who : string) (msg : string).

(** The calls the program makes to its collaborators, in the order made. *)
Inductive call :=
| call_NamedTemporaryFile (suffix : string)
| call_file_read (nbytes : Z)
| call_temp_write (path : string) (data : string)
| call_process_pdf (path : string)
| call_UnstructuredFileLoader (path : string)
| call_readlines (path : string)
| call_split_text (chunk_size chunk_overlap : Z) (text : string)
| call_from_texts (batch : list string)
| call_add_texts (batch : list string)
| call_unlink (path : string)
| call_pickle_dump (filename : string)
| call_similarity_search (query : string) (k : Z)
| call_generate_content (prompt : string).

(** An entry of [st.session_state.messages]. *)
Record Message := mkMessage {
  msg_role : string;
  msg_content : string;
  msg_time : string
}.

(** What a file of the working directory holds. *)
Inductive blob :=
| Pickled (v : VectorStore)
| Bytes (data : string).

(** A file of the working directory: its change time as [os.path.getctime]
    reports it, in microseconds since the epoch, and its contents. *)
Record DiskFile := mkDiskFile {
  ctime : Z;
  payload : blob
}.

(** The state the program acts on.  The [session_] fields are the keys of
    [st.session_state]; [session_last_uploaded_file] is [None] while the key
    is absent. *)
Record World := mkWorld {
  session_vectorstore : option VectorStore;
  session_last_uploaded_file : option string;
  session_messages : list Message;
  session_conversation_buffer : ConversationBuffer;
  ui : list ui_event;
  trace : list call;
  tmpfs : gmap string string;
  cwd : gmap string DiskFile;
  now : Z
}.

(** State passing with exceptions: the state survives a raise. *)
Definition M (A : Type) : Type := World -> outcome A * World.

Definition ret {A} (a : A) : M A := fun w => (Returns a, w).

Definition raise {A} (e : exn) : M A := fun w => (Raises e, w).

Definition bind {A B} (m : M A) (f : A -> M B) : M B :=
  fun w =>
    match m w with
    | (Returns a, w') => f a w'
    | (Raises e, w') => (Raises e, w')
    end.

(** [try: m except Exception as e: h e]. *)
Definition try_except {A} (m : M A) (h : exn -> M A) : M A :=
  fun w =>
    match m w with
    | (Returns a, w') => (Returns a, w')
    | (Raises e, w') => h e w'
    end.

(** The world that [m] leaves. *)
Definition after {A} (m : M A) (w : World) : World := (m w).2.

(** A call whose result is already known. *)
Definition lift {A} (r : outcome A) : M A := fun w => (r, w).

Notation "'let*' x := m 'in' k" := (bind m (fun x => k))
  (at level 10, x name, m at level 200, k at level 200,
   format "'[v' 'let*'  x  :=  m  'in' '/' k ']'").
Notation "'run' m 'then' k" := (bind m (fun _ => k))
  (at level 10, m at level 200, k at level 200,
   format "'[v' 'run'  m  'then' '/' k ']'").

Definition log_ui (e : ui_event) : M unit :=
  fun w => (Returns tt,
            mkWorld (session_vectorstore w) (session_last_uploaded_file w)
                    (session_messages w) (session_conversation_buffer w)
                    (ui w ++ [e]) (trace w) (tmpfs w) (cwd w) (now w)).

Definition log_call (c : call) : M unit :=
  fun w => (Returns tt,
            mkWorld (session_vectorstore w) (session_last_uploaded_file w)
                    (session_messages w) (session_conversation_buffer w)
                    (ui w) (trace w ++ [c]) (tmpfs w) (cwd w) (now w)).

Definition set_tmpfs (f : gmap string string -> gmap string string) : M unit :=
  fun w => (Returns tt,
            mkWorld (session_vectorstore w) (session_last_uploaded_file w)
                    (session_messages w) (session_conversation_buffer w)
                    (ui w) (trace w) (f (tmpfs w)) (cwd w) (now w)).

Definition set_cwd (f : gmap string DiskFile -> gmap string DiskFile) : M unit :=
  fun w => (Returns tt,
            mkWorld (session_vectorstore w) (session_last_uploaded_file w)
                    (session_messages w) (session_conversation_buffer w)
                    (ui w) (trace w) (tmpfs w) (f (cwd w)) (now w)).

Definition set_session_vectorstore (v : option VectorStore) : M unit :=
  fun w => (Returns tt,
            mkWorld v (session_last_uploaded_file w)
                    (session_messages w) (session_conversation_buffer w)
                    (ui w) (trace w) (tmpfs w) (cwd w) (now w)).

Definition set_session_last_uploaded_file (n : option string) : M unit :=
  fun w => (Returns tt,
            mkWorld (session_vectorstore w) n
                    (session_messages w) (session_conversation_buffer w)
                    (ui w) (trace w) (tmpfs w) (cwd w) (now w)).

Definition set_session_messages (f : list Message -> list Message) : M unit :=
  fun w => (Returns tt,
            mkWorld (session_vectorstore w) (session_last_uploaded_file w)
                    (f (session_messages w)) (session_conversation_buffer w)
                    (ui w) (trace w) (tmpfs w) (cwd w) (now w)).

Definition set_session_conversation_buffer
  (f : ConversationBuffer -> ConversationBuffer) : M unit :=
  fun w => (Returns tt,
            mkWorld (session_vectorstore w) (session_last_uploaded_file w)
                    (session_messages w) (f (session_conversation_buffer w))
                    (ui w) (trace w) (tmpfs w) (cwd w) (now w)).

Definition get {A} (proj : World -> A) : M A := fun w => (Returns (proj w), w).

(** ** What a computation leaves alone *)

(** The keys of [st.session_state]. *)
Definition session (w : World) :=
  (session_vectorstore w, session_last_uploaded_file w,
   session_messages w, session_conversation_buffer w).

(** [m] writes no key of the session state. *)
Definition keeps_session {A} (m : M A) : Prop :=
  forall w, session (m w).2 = session w.

(** [m] returns: it never raises. *)
Definition never_raises {A} (m : M A) : Prop :=
  forall w, exists a, (m w).1 = Returns a.

(** ** The collaborators *)

(** An attribute of a Python object as [hasattr] and attribute access see
    it: absent, holding a value, or a property whose getter raises. *)
Inductive attr (A : Type) :=
| attr_missing
| attr_value (a : A)
| attr_raises (e : exn).
Arguments attr_missing {A}.
Arguments attr_value {A} a.
Arguments attr_raises {A} e.

(** [hasattr(obj, name)] calls the getter and answers [False] when it
    raises [AttributeError], as it does for an absent attribute; any
    other exception of the getter propagates. *)
Definition hasattr {A} (a : attr A) : outcome bool :=
  match a with
  | attr_missing => Returns false
  | attr_value _ => Returns true
  | attr_raises (AttributeError _) => Returns false
  | attr_raises e => Raises e
  end.

(** The text of the [AttributeError] that the access to an absent
    attribute raises on an instance of the class [cls]. *)
Definition no_attribute (cls name : string) : string :=
  "'" +:+ cls +:+ "' object has no attribute '" +:+ name +:+ "'".

(** [obj.name], for an object of the class [cls]. *)
Definition getattr {A} (cls name : string) (a : attr A) : outcome A :=
  match a with
  | attr_missing => Raises (AttributeError (no_attribute cls name))
  | attr_value v => Returns v
  | attr_raises e => Raises e
  end.

(** An element of [response.parts]: the name of its class and its
    attribute [text]. *)
Record Part := mkPart {
  part_class : string;
  part_text : attr string
}.

(** What [model.generate_content] returns, as far as the program probes
    it: the name of its class, the attributes [text] and [parts], and
    [str(response)]. *)
Record Response := mkResponse {
  response_class : string;
  response_text : attr string;
  response_parts : attr (list Part);
  response_str : outcome string
}.

(** An uploaded file: [file.name], [file.size], and what the successive
    calls [file.read(chunk_size)] return; past the end of the list,
    [read] returns the empty bytes. *)
Record UploadedFile := mkUpload {
  file_name : string;
  file_size : Z;
  file_reads : list (outcome string)
}.

(** The libraries and services the program calls. *)
Record Env := mkEnv {
  (** [vectorstore.similarity_search(query, k=k)] *)
  env_similarity_search : VectorStore -> string -> Z -> outcome (list Document);
  (** [model.generate_content(prompt)] *)
  env_generate_content : string -> outcome Response;
  (** [datetime.strftime("%H:%M")] of a time *)
  env_strftime : Z -> string;
  (** [os.path.splitext(name)[1]] *)
  env_splitext : string -> string;
  (** the path [tempfile.NamedTemporaryFile(delete=False, suffix=...)]
      creates *)
  env_NamedTemporaryFile : string -> outcome string;
  (** [PdfReader] and [extract_text] over the pages of a file's bytes *)
  env_pdf_pages : string -> outcome (list string);
  (** [UnstructuredFileLoader(path).load()], the [page_content] of each *)
  env_unstructured : string -> outcome (list string);
  (** [open(path, 'r').readlines()] *)
  env_readlines : string -> outcome (list string);
  (** [RecursiveCharacterTextSplitter(chunk_size, chunk_overlap).split_text] *)
  env_split_text : Z -> Z -> string -> outcome (list string);
  (** the embedding of a batch of texts by [HuggingFaceEmbeddings] *)
  env_embed : list string -> outcome (list embedding);
  (** [os.unlink(path)] *)
  env_unlink : string -> outcome unit;
  (** [pickle.dump(vectorstore, f)] *)
  env_pickle_dump : VectorStore -> outcome unit;
  (** the bytes that [pickle.dump(vectorstore, f)] has written to [f] by
      the time it raises *)
  env_pickle_flushed : VectorStore -> string;
  (** [os.listdir()]: the names of the entries of the working directory,
      in the order the system gives them *)
  env_listdir : gmap string DiskFile -> list string;
  (** [os.remove(path)] *)
  env_remove : string -> outcome unit;
  (** the markup parser that [Paragraph(text, style)] runs on [text] *)
  env_paragraph_markup : string -> outcome unit
}.

(** [s.endswith(suffix)] and [s.startswith(prefix)]. *)
Definition endswith (s suffix : string) : bool :=
  let n := String.length s in
  let k := String.length suffix in
  (k <=? n)%nat && String.eqb (String.substring (n - k) k s) suffix.

Definition startswith (s pre : string) : bool := String.prefix pre s.

(** Truth value of a [str]. *)
Definition nonempty (s : string) : bool :=
  match s with EmptyString => false | String _ _ => true end.

(** [sep.join(l)]. *)
Definition join (sep : string) (l : list string) : string :=
  String.concat sep l.

(** [sub in s]: [sub] occurs in [s]. *)
Fixpoint contains (sub s : string) : bool :=
  String.prefix sub s
  || match s with
     | EmptyString => false
     | String _ rest => contains sub rest
     end.

(** [c in s] for a character [c]. *)
Fixpoint mentions (c : ascii) (s : string) : bool :=
  match s with
  | EmptyString => false
  | String x rest => bool_decide (x = c) || mentions c rest
  end.

(** [s.split(c)] for a one-character separator [c]. *)
Fixpoint split_on (c : ascii) (s : string) : list string :=
  match s with
  | EmptyString => [""]
  | String x rest =>
      if bool_decide (x = c) then "" :: split_on c rest
      else match split_on c rest with
           | [] => [String x ""]
           | piece :: pieces => String x piece :: pieces
           end
  end.

(** [get_current_time]. *)
Definition get_current_time (env : Env) : M string :=
  let* t := get now in ret (env_strftime env t).

(** ** Response fetcher *)

Definition base_context : string :=
  join newline
    [ "You are AgroPro, a helpful and knowledgeable AI specializing in agriculture, farming practices, crop science, soil health, and sustainable agriculture. When assisting users:";
      "";
      "    1. Offer practical advice for farmers and agricultural professionals on topics like crop management, pest control, and sustainable practices.";
      "    2. Tailor responses for different experience levels, from novice farmers to agriculture experts.";
      "    3. Provide concise, relevant information, aiming to increase user understanding of agricultural science and industry trends.";
      "    4. Encourage environmental responsibility by promoting sustainable agricultural methods.";
      "    5. Suggest real-world applications for farming techniques, such as water conservation, soil management, and organic farming practices.";
      "    6. Motivate users to improve their practices by suggesting resources and tools for further learning.";
      "";
      "    Previous conversation:";
      "    " ].

(** The label of the document section and of the user query. *)
Definition document_label : string := "Relevant document content:".
Definition query_label : string := "User query: ".

(** The apology of [get_gemini_response] and that of
    [safe_get_gemini_response]. *)
Definition apology : string :=
  "I'm sorry, I encountered an error. Could you please try again or rephrase your question?".

Definition safe_apology : string :=
  "I'm sorry, I encountered an error. Could you please rephrase your question?".

(** [vectorstore.similarity_search(prompt, k=2)]. *)
Definition similarity_search (env : Env) (vs : VectorStore) (query : string)
  (k : Z) : M (list Document) :=
  run log_call (call_similarity_search query k) then
  lift (env_similarity_search env vs query k).

(** [model.generate_content(full_context)]. *)
Definition generate_content (env : Env) (prompt : string) : M Response :=
  run log_call (call_generate_content prompt) then
  lift (env_generate_content env prompt).

(** The generator [part.text for part in response.parts], consumed by
    [' '.join]: it stops at the first part whose [text] raises. *)
Fixpoint part_texts (parts : list Part) : outcome (list string) :=
  match parts with
  | [] => Returns []
  | p :: rest =>
      match getattr (part_class p) "text" (part_text p) with
      | Raises e => Raises e
      | Returns t =>
          match part_texts rest with
          | Raises e => Raises e
          | Returns ts => Returns (t :: ts)
          end
      end
  end.

(** The three reply shapes, lines 171-176. *)
Definition reply_text (response : Response) : outcome string :=
  match hasattr (response_text response) with
  | Raises e => Raises e
  | Returns true =>
      getattr (response_class response) "text" (response_text response)
  | Returns false =>
      match hasattr (response_parts response) with
      | Raises e => Raises e
      | Returns true =>
          match getattr (response_class response) "parts"
                  (response_parts response) with
          | Raises e => Raises e
          | Returns parts =>
              match part_texts parts with
              | Raises e => Raises e
              | Returns ts => Returns (join " " ts)
              end
          end
      | Returns false => response_str response
      end
  end.

(** The prompt of the grounded and of the ungrounded mode, lines 165 and 167. *)
Definition grounded_prompt (conversation_context doc_context prompt : string)
  : string :=
  base_context +:+ newline +:+ conversation_context +:+ newline +:+ newline
  +:+ document_label +:+ newline +:+ doc_context +:+ newline +:+ newline
  +:+ query_label +:+ prompt.

Definition ungrounded_prompt (conversation_context prompt : string) : string :=
  base_context +:+ newline +:+ conversation_context +:+ newline +:+ newline
  +:+ query_label +:+ prompt.

(** [get_gemini_response]. *)
Definition get_gemini_response (env : Env)
  (conversation_buffer : ConversationBuffer) (prompt : string)
  (vectorstore : option VectorStore) : M string :=
  let conversation_context := get_context conversation_buffer in
  let* full_context :=
    match vectorstore with
    | Some vs =>
        let* relevant_docs := similarity_search env vs prompt 2 in
        let doc_context := join newline (map page_content relevant_docs) in
        ret (grounded_prompt conversation_context doc_context prompt)
    | None => ret (ungrounded_prompt conversation_context prompt)
    end in
  try_except
    (let* response := generate_content env full_context in
     lift (reply_text response))
    (fun e =>
       run log_ui (st_error ("An error occurred while generating the response: "
                             +:+ str_exn e)) then
       ret apology).

(** [safe_get_gemini_response]. *)
Definition safe_get_gemini_response (env : Env)
  (conversation_buffer : ConversationBuffer) (prompt : string)
  (vectorstore : option VectorStore) : M string :=
  try_except
    (get_gemini_response env conversation_buffer prompt vectorstore)
    (fun e =>
       run log_ui (st_error ("An error occurred: " +:+ str_exn e
                             +:+ ". Please try again.")) then
       ret safe_apology).

(** The chat branch of [chat_interface], lines 287-298, for a submitted
    (non-empty) [prompt]. *)
Definition chat_round (env : Env) (prompt : string) : M unit :=
  let* t1 := get_current_time env in
  run log_ui (st_chat_message "user" (prompt +:+ " - " +:+ t1)) then
  let* t2 := get_current_time env in
  run set_session_messages (fun ms => ms ++ [mkMessage "user" prompt t2]) then
  run set_session_conversation_buffer (fun cb => add_message cb "user" prompt) then
  let* vectorstore := get session_vectorstore in
  let* cb := get session_conversation_buffer in
  let* response := get_gemini_response env cb prompt vectorstore in
  let* t3 := get_current_time env in
  run log_ui (st_chat_message "assistant" (response +:+ " - " +:+ t3)) then
  let* t4 := get_current_time env in
  run set_session_messages (fun ms => ms ++ [mkMessage "assistant" response t4]) then
  set_session_conversation_buffer (fun cb => add_message cb "assistant" response).

(** ** Ingestion *)

Definition MAX_FILE_SIZE : Z := 15 * 1024 * 1024.

(** The [chunk_size] of the copy loop, and the [batch_size], the
    [chunk_size] and the [chunk_overlap] of the index build. *)
Definition copy_chunk_size : Z := 3 * 1024 * 1024.
Definition batch_size : nat := 1000.
Definition splitter_chunk_size : Z := 1000.
Definition splitter_chunk_overlap : Z := 200.

Definition oversize_message : string :=
  "File size exceeds the limit of 15MB. Please upload a smaller file.".

Definition unsupported_message : string :=
  "Unsupported file format. Please upload a PDF, DOCX, or TXT file.".

(** The copy loop, lines 61-65: read, stop at the empty chunk, else
    write. *)
Fixpoint copy_upload (path : string) (reads : list (outcome string)) : M unit :=
  run log_call (call_file_read copy_chunk_size) then
  match reads with
  | [] => ret tt
  | r :: rest =>
      let* chunk := lift r in
      if nonempty chunk
      then
        run log_call (call_temp_write path chunk) then
        run set_tmpfs (fun fs => <[path := default "" (fs !! path) +:+ chunk]> fs) then
        copy_upload path rest
      else ret tt
  end.

(** The [with] block, lines 58-66; it returns [temp_file.name]. *)
Definition spool_upload (env : Env) (file : UploadedFile) : M string :=
  let suffix := env_splitext env (file_name file) in
  run log_call (call_NamedTemporaryFile suffix) then
  let* path := lift (env_NamedTemporaryFile env suffix) in
  run set_tmpfs (fun fs => <[path := ""]> fs) then
  run copy_upload path (file_reads file) then
  ret path.

(** What opening [path] for reading yields. *)
Definition read_temp (path : string) : M string :=
  let* found := get (fun w => tmpfs w !! path) in
  match found with
  | Some data => ret data
  | None => raise (OtherError ("FileNotFoundError: " +:+ path))
  end.

(** [process_pdf]. *)
Definition process_pdf (env : Env) (file_path : string) : M (list string) :=
  run log_call (call_process_pdf file_path) then
  let* data := read_temp file_path in
  lift (env_pdf_pages env data).

(** [FAISS.from_texts(batch, embeddings)] and [vectorstore.add_texts(batch)]. *)
Definition from_texts (env : Env) (batch : list string) : M VectorStore :=
  run log_call (call_from_texts batch) then
  let* vectors := lift (env_embed env batch) in
  ret (mkStore batch vectors).

Definition add_texts (env : Env) (vs : VectorStore) (batch : list string)
  : M VectorStore :=
  run log_call (call_add_texts batch) then
  let* vectors := lift (env_embed env batch) in
  ret (mkStore (store_texts vs ++ batch) (store_vectors vs ++ vectors)).

(** [range(0, n, step)] for a positive [step]. *)
Definition range_step (n step : nat) : list nat :=
  map (fun j => (j * step)%nat) (seq 0 ((n + step - 1) / step)%nat).

(** The loop of lines 87-92 over the start indices still to visit. *)
Fixpoint build_index (env : Env) (split_texts : list string)
  (starts : list nat) (vectorstore : option VectorStore)
  : M (option VectorStore) :=
  match starts with
  | [] => ret vectorstore
  | i :: rest =>
      let batch := slice i (i + batch_size) split_texts in
      let* vs :=
        match vectorstore with
        | None => from_texts env batch
        | Some vs => add_texts env vs batch
        end in
      build_index env split_texts rest (Some vs)
  end.

(** The choice of a parser by the extension, lines 68-79; [None] stands
    for the early [return None] of the unsupported format. *)
Definition parse_upload (env : Env) (file : UploadedFile)
  (temp_file_path : string) : M (option (list string)) :=
  if endswith (file_name file) ".pdf" then
    let* texts := process_pdf env temp_file_path in ret (Some texts)
  else if endswith (file_name file) ".docx" then
    run log_call (call_UnstructuredFileLoader temp_file_path) then
    let* data := read_temp temp_file_path in
    let* texts := lift (env_unstructured env data) in ret (Some texts)
  else if endswith (file_name file) ".txt" then
    run log_call (call_readlines temp_file_path) then
    let* data := read_temp temp_file_path in
    let* texts := lift (env_readlines env data) in ret (Some texts)
  else
    run log_ui (st_error unsupported_message) then ret None.

(** Splitting and the index build, lines 81-94. *)
Definition index_texts (env : Env) (texts : list string)
  : M (option VectorStore) :=
  let text := join newline texts in
  run log_call (call_split_text splitter_chunk_size
                  splitter_chunk_overlap text) then
  let* split_texts :=
    lift (env_split_text env splitter_chunk_size
            splitter_chunk_overlap text) in
  build_index env split_texts
    (range_step (length split_texts) batch_size) None.

(** The rest of the [try] block, lines 68-94, once [temp_file_path] is
    set. *)
Definition ingest (env : Env) (file : UploadedFile) (temp_file_path : string)
  : M (option VectorStore) :=
  let* parsed := parse_upload env file temp_file_path in
  match parsed with
  | None => ret None
  | Some texts => index_texts env texts
  end.

(** The two handlers, lines 95-102. *)
Definition ingestion_handlers (e : exn) : M (option VectorStore) :=
  match e with
  | ImportError _ =>
      run log_ui (st_error "Error: Missing dependencies for processing this file type.") then
      run log_ui (st_info "Please install the required packages by running:") then
      run log_ui (st_code "pip install pypdf faiss-cpu") then
      ret None
  | AttributeError _ | OtherError _ =>
      run log_ui (st_error ("An error occurred while processing the document: "
                            +:+ str_exn e)) then
      ret None
  end.

(** The [finally] clause, lines 103-108. *)
Definition remove_temp (env : Env) (temp_file_path : option string) : M unit :=
  match temp_file_path with
  | None => ret tt
  | Some path =>
      let* present := get (fun w => bool_decide (is_Some (tmpfs w !! path))) in
      if nonempty path && present
      then
        try_except
          (run log_call (call_unlink path) then
           run lift (env_unlink env path) then
           set_tmpfs (fun fs => delete path fs))
          (fun e =>
             log_ui (st_warning ("Could not remove temporary file: "
                                 +:+ str_exn e)))
      else ret tt
  end.

(** [try: m finally: fin]: [fin] runs on both exits, and an exception of
    [fin] replaces the result of [m]. *)
Definition finally {A} (m : M A) (fin : M unit) : M A :=
  fun w =>
    let '(r, w1) := m w in
    match fin w1 with
    | (Returns _, w2) => (r, w2)
    | (Raises e, w2) => (Raises e, w2)
    end.

(** [process_document].  [temp_file_path] is assigned by the last
    statement of the [with] block: when that block raises, the [finally]
    clause still sees [None]. *)
Definition process_document (env : Env) (file : UploadedFile)
  : M (option VectorStore) :=
  if file_size file >? MAX_FILE_SIZE
  then run log_ui (st_error oversize_message) then ret None
  else
    fun w =>
      match spool_upload env file w with
      | (Raises e, w1) =>
          finally (ingestion_handlers e) (remove_temp env None) w1
      | (Returns temp_file_path, w1) =>
          finally (try_except (ingest env file temp_file_path)
                     ingestion_handlers)
                  (remove_temp env (Some temp_file_path)) w1
      end.

(** What the copy loop writes for a sequence of reads: the chunks up to
    the first empty one, or the exception of the first failing read. *)
Fixpoint upload_bytes (reads : list (outcome string)) : outcome string :=
  match reads with
  | [] => Returns ""
  | Raises e :: _ => Raises e
  | Returns chunk :: rest =>
      if nonempty chunk
      then match upload_bytes rest with
           | Returns data => Returns (chunk +:+ data)
           | Raises e => Raises e
           end
      else Returns ""
  end.

(** The parser that the extension of [name] selects, applied to the
    bytes of the temporary file; [None] for an unsupported format. *)
Definition parser_result (env : Env) (name data : string)
  : option (outcome (list string)) :=
  if endswith name ".pdf" then Some (env_pdf_pages env data)
  else if endswith name ".docx" then Some (env_unstructured env data)
  else if endswith name ".txt" then Some (env_readlines env data)
  else None.

(** The batch that starts at index [i]. *)
Definition batch_at (split_texts : list string) (i : nat) : list string :=
  slice i (i + batch_size) split_texts.

(** The chunks an index under construction holds. *)
Definition texts_of (acc : option VectorStore) : list string :=
  match acc with Some v => store_texts v | None => [] end.

(** The embedding back end answers for [batch]. *)
Definition embeds (env : Env) (batch : list string) : Prop :=
  exists vectors, env_embed env batch = Returns vectors.

(** The calls that copy an upload to its temporary file or remove it, as
    opposed to those that parse, split, embed or index. *)
Definition is_spool_call (c : call) : bool :=
  match c with
  | call_NamedTemporaryFile _ | call_file_read _ | call_temp_write _ _
  | call_unlink _ => true
  | _ => false
  end.

Definition spooling (c : call) : Prop := is_spool_call c = true.

(** Every call that [m] makes satisfies [P]. *)
Definition emits (P : call -> Prop) {A} (m : M A) : Prop :=
  forall w, exists cs, trace (after m w) = trace w ++ cs /\ Forall P cs.

(** ** Persistence *)

Definition default_filename : string := "vectorstore.pkl".

(** [pickle.dump(vectorstore, f)] on the file [filename], opened for
    writing at the time [t]: the pickle is written to the file as it is
    produced, so a dump that raises leaves in the file the bytes written
    until then. *)
Definition pickle_dump (env : Env) (vectorstore : VectorStore)
  (filename : string) (t : Z) : M unit :=
  run log_call (call_pickle_dump filename) then
  match env_pickle_dump env vectorstore with
  | Returns _ =>
      set_cwd (fun d => <[filename := mkDiskFile t (Pickled vectorstore)]> d)
  | Raises e =>
      run set_cwd (fun d =>
            <[filename := mkDiskFile t
                            (Bytes (env_pickle_flushed env vectorstore))]> d) then
      raise e
  end.

(** [save_vectorstore]: [open(filename, "wb")] creates or truncates the
    file, then [pickle.dump] fills it. *)
Definition save_vectorstore (env : Env) (vectorstore : VectorStore)
  (filename : string) : M unit :=
  let* t := get now in
  run set_cwd (fun d => <[filename := mkDiskFile t (Bytes "")]> d) then
  pickle_dump env vectorstore filename t.

(** [load_vectorstore]; [pickle.load] raises on a file that does not hold
    a whole pickle. *)
Definition load_vectorstore (filename : string) : M (option VectorStore) :=
  let* found := get (fun w => cwd w !! filename) in
  match found with
  | None => ret None
  | Some f =>
      match payload f with
      | Pickled v => ret (Some v)
      | Bytes _ => raise (OtherError "UnpicklingError")
      end
  end.

(** ** The upload branch of [chat_interface], lines 231-247 *)

Definition handle_upload (env : Env) (uploaded_file : option UploadedFile)
  : M unit :=
  match uploaded_file with
  | None => ret tt
  | Some file =>
      if file_size file >? MAX_FILE_SIZE
      then log_ui (st_error oversize_message)
      else
        let* last := get session_last_uploaded_file in
        if bool_decide (last = Some (file_name file))
        then log_ui (st_info "Document already processed. Using existing vectorstore.")
        else
          let* vectorstore := process_document env file in
          match vectorstore with
          | Some v =>
              run set_session_vectorstore (Some v) then
              run save_vectorstore env v default_filename then
              run set_session_last_uploaded_file (Some (file_name file)) then
              log_ui (st_success "Document processed and saved successfully!")
          | None =>
              log_ui (st_warning "Document processing failed. Please check the error message above.")
          end
  end.

(** ** Housekeeping *)

Definition microseconds_per_day : Z := 86400 * 1000000.

(** [timedelta.days] of a difference of [delta] microseconds: whole days,
    rounded down. *)
Definition timedelta_days (delta : Z) : Z := delta / microseconds_per_day.

(** The test of lines 303-306 on a directory entry. *)
Definition swept (max_age_days current_time : Z) (filename : string)
  (f : DiskFile) : bool :=
  startswith filename "vectorstore_" && endswith filename ".pkl"
  && (timedelta_days (current_time - ctime f) >? max_age_days).

(** [os.remove(file_path)]: the entry is gone when the call returns. *)
Definition os_remove (env : Env) (filename : string) : M unit :=
  run lift (env_remove env filename) then
  set_cwd (fun d => delete filename d).

(** The loop of lines 302-307 over the names still to visit.  There is
    no handler: an [os.remove] that raises ends the loop, and
    [os.path.getctime] raises for a name that is not in the directory. *)
Fixpoint sweep (env : Env) (max_age_days current_time : Z)
  (names : list string) : M unit :=
  match names with
  | [] => ret tt
  | filename :: rest =>
      if startswith filename "vectorstore_" && endswith filename ".pkl"
      then
        let* entry := get (fun w => cwd w !! filename) in
        match entry with
        | None => raise (OtherError ("FileNotFoundError: " +:+ filename))
        | Some f =>
            if timedelta_days (current_time - ctime f) >? max_age_days
            then
              run os_remove env filename then
              sweep env max_age_days current_time rest
            else sweep env max_age_days current_time rest
        end
      else sweep env max_age_days current_time rest
  end.

(** [cleanup_old_vectorstores]. *)
Definition cleanup_old_vectorstores (env : Env) (max_age_days : Z) : M unit :=
  let* current_time := get now in
  let* names := get (fun w => env_listdir env (cwd w)) in
  sweep env max_age_days current_time names.

(** [os.listdir] names each entry of the directory once. *)
Definition lists_directory (env : Env) (d : gmap string DiskFile) : Prop :=
  env_listdir env d ≡ₚ (map_to_list d).*1.

(** Every [os.remove] that a sweep of [d] can attempt succeeds. *)
Definition removals_succeed (env : Env) (max_age_days current_time : Z)
  (d : gmap string DiskFile) : Prop :=
  forall name f,
    d !! name = Some f ->
    swept max_age_days current_time name f = true ->
    env_remove env name = Returns tt.

Definition default_max_age_days : Z := 2.

(** ** Chunker

    The splitter is not part of the program, which only calls it; it is
    modelled here from section 4.1 of the specification.  The text of a
    document is taken as the list of its characters. *)
Abbreviation text := (list ascii).

Local Open Scope nat_scope.

(** Where the window [w] is best cut at the separator [sep]: just after
    the last occurrence of [sep] in [w], if there is one.  [pos] is the
    position of [w] in the window, [best] the best cut found so far. *)
Fixpoint last_break (sep : text) (w : text) (pos : nat) (best : option nat)
  : option nat :=
  match w with
  | [] => best
  | _ :: w' =>
      last_break sep w' (S pos)
        (if bool_decide (sep `prefix_of` w) then Some (pos + length sep)%nat
         else best)
  end.

Definition paragraph_break : text := ["010"; "010"]%char.
Definition sentence_break : text := ["."; " "]%char.
Definition word_break : text := [" "]%char.

(** Modelled from the spec: the preference for natural boundaries of the
    splitter, which is not part of the program.  The preferred cut of a
    window is after the last paragraph break, else after the last
    sentence, else after the last word, else at the end of the window
    (the hard cut). *)
Definition natural_cut (w : text) : nat :=
  match last_break paragraph_break w 0 None with
  | Some j => j
  | None =>
      match last_break sentence_break w 0 None with
      | Some j => j
      | None =>
          match last_break word_break w 0 None with
          | Some j => j
          | None => length w
          end
      end
  end.

(** Modelled from the spec: the splitter itself, which [process_document]
    only calls ([RecursiveCharacterTextSplitter.split_text], of a library
    that is not part of the program).  Section 4.1 of the specification:
    chunks are bounded at a maximum size, consecutive chunks overlap by
    the given overlap, a break at a natural boundary is preferred to a
    hard cut, and an empty text gives no chunk.

    [spans_from] gives the spans [(start, stop)] of the chunks of the
    text that starts at position [p] and goes on with [rest], in at most
    [fuel] chunks.  A text that fits is one chunk.
    Otherwise the chunk is the window of [size] characters, cut where
    [cut_point] prefers (at least one character, at most the window), and
    the next chunk starts [overlap] characters before the cut, or at the
    cut when the chunk is not longer than the overlap. *)
Fixpoint spans_from (cut_point : text -> nat) (size overlap : nat)
  (fuel : nat) (p : nat) (rest : text) : list (nat * nat) :=
  match fuel with
  | 0 => []
  | S fuel' =>
      let n := length rest in
      if (n =? 0)%nat then []
      else if (n <=? size)%nat then [(p, p + n)%nat]
      else
        let cut := Nat.max 1 (Nat.min size (cut_point (take size rest))) in
        let step := if (overlap <? cut)%nat then (cut - overlap)%nat else cut in
        (p, p + cut)%nat
        :: spans_from cut_point size overlap fuel' (p + step) (drop step rest)
  end.

(** Modelled from the spec: the spans of the chunks of a whole text; the
    length of the text is fuel enough, since every chunk moves on by at
    least one character. *)
Definition chunk_spans (cut_point : text -> nat) (size overlap : nat)
  (t : text) : list (nat * nat) :=
  spans_from cut_point size overlap (length t) 0 t.

(** The chunk of a span. *)
Definition chunk_of (t : text) (span : nat * nat) : text :=
  take (span.2 - span.1) (drop span.1 t).

(** Modelled from the spec: the chunks of the splitter, which is not part
    of the program, as the substrings of the text at the spans of
    [chunk_spans]. *)
Definition split_chars (cut_point : text -> nat) (size overlap : nat)
  (t : text) : list text :=
  map (chunk_of t) (chunk_spans cut_point size overlap t).

Local Open Scope Z_scope.

(** Modelled from the spec: the splitter, which is not part of the
    program, with the preference for natural boundaries, on strings. *)
Definition split_text_spec (chunk_size chunk_overlap : Z) (s : string)
  : list string :=
  map string_of_list_ascii
    (split_chars natural_cut (Z.to_nat chunk_size) (Z.to_nat chunk_overlap)
       (list_ascii_of_string s)).

(** ** Sample collaborators

    A small environment on which the model can be run: the index is
    searched in insertion order, the splitter makes one chunk of a
    non-empty text, every call succeeds. *)

Definition sample_env : Env := {|
  env_similarity_search := fun vs _ k =>
    Returns (map mkDoc (take (Z.to_nat k) (store_texts vs)));
  env_generate_content := fun _ =>
    Returns (mkResponse "GenerateContentResponse"
               (attr_value "Rotate your crops.") attr_missing
               (Returns "response"));
  env_strftime := fun _ => "12:00";
  env_splitext := fun name =>
    if endswith name ".txt" then ".txt"
    else if endswith name ".md" then ".md" else "";
  env_NamedTemporaryFile := fun suffix => Returns ("/tmp/tmpk3v9" +:+ suffix);
  env_pdf_pages := fun data => Returns [data];
  env_unstructured := fun data => Returns [data];
  env_readlines := fun data => Returns (if nonempty data then [data] else []);
  env_split_text := fun _ _ text =>
    Returns (if nonempty text then [text] else []);
  env_embed := fun batch => Returns (map (fun _ => [1; 0]) batch);
  env_unlink := fun _ => Returns tt;
  env_pickle_dump := fun _ => Returns tt;
  env_pickle_flushed := fun _ => String "128"%char (String "004"%char "");
  env_listdir := fun d => (map_to_list d).*1;
  env_remove := fun _ => Returns tt;
  env_paragraph_markup := fun _ => Returns tt
|}.

(** The same, with an index whose search raises. *)
Definition failing_search_env : Env := {|
  env_similarity_search := fun _ _ _ =>
    Raises (OtherError "embedding backend unavailable");
  env_generate_content := env_generate_content sample_env;
  env_strftime := env_strftime sample_env;
  env_splitext := env_splitext sample_env;
  env_NamedTemporaryFile := env_NamedTemporaryFile sample_env;
  env_pdf_pages := env_pdf_pages sample_env;
  env_unstructured := env_unstructured sample_env;
  env_readlines := env_readlines sample_env;
  env_split_text := env_split_text sample_env;
  env_embed := env_embed sample_env;
  env_unlink := env_unlink sample_env;
  env_pickle_dump := env_pickle_dump sample_env;
  env_pickle_flushed := env_pickle_flushed sample_env;
  env_listdir := env_listdir sample_env;
  env_remove := env_remove sample_env;
  env_paragraph_markup := env_paragraph_markup sample_env
|}.

(** A new session: no vectorstore, an empty default buffer. *)
Definition new_world : World := {|
  session_vectorstore := None;
  session_last_uploaded_file := None;
  session_messages := [];
  session_conversation_buffer := new_buffer default_max_turns;
  ui := [];
  trace := [];
  tmpfs := empty;
  cwd := empty;
  now := 0
|}.

(** The world [w] at the later time [t]. *)
Definition at_time (t : Z) (w : World) : World :=
  mkWorld (session_vectorstore w) (session_last_uploaded_file w)
          (session_messages w) (session_conversation_buffer w)
          (ui w) (trace w) (tmpfs w) (cwd w) t.

Definition sample_store : VectorStore :=
  mkStore ["Maize needs nitrogen."; "Beans fix nitrogen."; "Rotate both."]
          [[1; 0]; [1; 0]; [1; 0]].

(** A small upload of an unsupported format, an empty text file, and a
    20 MB upload. *)
Definition notes_md : UploadedFile :=
  mkUpload "notes.md" 5 [Returns "# hi"; Returns "!"].

Definition empty_txt : UploadedFile := mkUpload "empty.txt" 0 [].

Definition big_pdf : UploadedFile :=
  mkUpload "big.pdf" (20 * 1024 * 1024) [].

(** ** Chat round, lines 287-298 *)

(** The world once the user turn of a chat round is shown and recorded,
    lines 288-290. *)
Definition user_turn_recorded (env : Env) (prompt : string) (w : World)
  : World :=
  mkWorld (session_vectorstore w) (session_last_uploaded_file w)
          (session_messages w
           ++ [mkMessage "user" prompt (env_strftime env (now w))])
          (add_message (session_conversation_buffer w) "user" prompt)
          (ui w ++ [st_chat_message "user"
                      (prompt +:+ " - " +:+ env_strftime env (now w))])
          (trace w) (tmpfs w) (cwd w) (now w).

(** ** Session start, lines 205-207 *)

(** The first statement of [chat_interface]: the persisted index is
    loaded when the key "vectorstore" is not [present] in the session
    state. *)
Definition init_vectorstore (present : bool) : M unit :=
  if present then ret tt
  else
    let* loaded := load_vectorstore default_filename in
    set_session_vectorstore loaded.

(** The world as a new session finds it: the files are those of [w], no
    key of the session state is set. *)
Definition new_session (w : World) : World :=
  mkWorld None None [] (new_buffer default_max_turns)
          (ui w) (trace w) (tmpfs w) (cwd w) (now w).

(** ** Session management, lines 251-264

    The session state holds the message list and the conversation buffer
    by reference, and "Save Chat Session" stores the same references
    once more: the objects live in a heap, the keys hold addresses. *)

Record Heap := mkHeap {
  heap_messages : gmap nat (list Message);
  heap_buffers : gmap nat ConversationBuffer
}.

(** The keys [messages], [conversation_buffer] and [saved_session] of
    [st.session_state]; the last one is [None] while the key is absent,
    and holds the two entries of the saved dict otherwise. *)
Record Keys := mkKeys {
  key_messages : nat;
  key_conversation_buffer : nat;
  key_saved_session : option (nat * nat)
}.

Record Session := mkSession {
  heap : Heap;
  keys : Keys
}.

(** [st.session_state.messages.append(message)]: the list object is
    extended in place. *)
Definition append_message (message : Message) (s : Session) : Session :=
  mkSession
    (mkHeap (alter (fun l => l ++ [message]) (key_messages (keys s))
               (heap_messages (heap s)))
            (heap_buffers (heap s)))
    (keys s).

(** [st.session_state.conversation_buffer.add_message(role, content)]:
    the buffer object is updated in place. *)
Definition buffer_add_message (r c : string) (s : Session) : Session :=
  mkSession
    (mkHeap (heap_messages (heap s))
            (alter (fun cb => add_message cb r c)
               (key_conversation_buffer (keys s)) (heap_buffers (heap s))))
    (keys s).

(** What a chat round records, lines 289-290 and 297-298. *)
Inductive record :=
| record_user (prompt time : string)
| record_assistant (response time : string).

Definition apply_record (s : Session) (r : record) : Session :=
  match r with
  | record_user prompt time =>
      buffer_add_message "user" prompt
        (append_message (mkMessage "user" prompt time) s)
  | record_assistant response time =>
      buffer_add_message "assistant" response
        (append_message (mkMessage "assistant" response time) s)
  end.

Definition apply_records (s : Session) (rs : list record) : Session :=
  foldl apply_record s rs.

(** The button "Save Chat Session". *)
Definition save_chat_session (s : Session) : ui_event * Session :=
  (st_success "Session saved successfully!",
   mkSession (heap s)
     (mkKeys (key_messages (keys s)) (key_conversation_buffer (keys s))
        (Some (key_messages (keys s), key_conversation_buffer (keys s))))).

(** The button "Load Last Session". *)
Definition load_last_session (s : Session) : ui_event * Session :=
  match key_saved_session (keys s) with
  | Some (saved_messages, saved_buffer) =>
      (st_success "Session loaded successfully!",
       mkSession (heap s)
         (mkKeys saved_messages saved_buffer (key_saved_session (keys s))))
  | None => (st_warning "No saved session found.", s)
  end.

(** The messages and the buffer that the session shows. *)
Definition shown_messages (s : Session) : option (list Message) :=
  heap_messages (heap s) !! key_messages (keys s).

Definition shown_buffer (s : Session) : option ConversationBuffer :=
  heap_buffers (heap s) !! key_conversation_buffer (keys s).

(** The message that a record appends. *)
Definition record_message (r : record) : Message :=
  match r with
  | record_user prompt time => mkMessage "user" prompt time
  | record_assistant response time => mkMessage "assistant" response time
  end.

(** The turn that a record adds to the buffer. *)
Definition record_turn (r : record) : Turn :=
  match r with
  | record_user prompt _ => mkTurn "user" prompt
  | record_assistant response _ => mkTurn "assistant" response
  end.

(** ** Export, lines 181-199 *)

(** The flowables of the story; a paragraph is recorded by the arguments
    of its constructor. *)
Inductive flowable :=
| Paragraph (text : string) (style : string)
| Spacer (width height : Z).

(** [Paragraph(text, styles[style])]: the constructor parses [text] as
    markup and raises what the parser raises. *)
Definition make_paragraph (env : Env) (text style : string) : outcome flowable :=
  match env_paragraph_markup env text with
  | Returns _ => Returns (Paragraph text style)
  | Raises e => Raises e
  end.

(** The paragraph of a message, lines 192-195. *)
Definition message_paragraph (env : Env) (message : Message) : outcome flowable :=
  if String.eqb (msg_role message) "user"
  then make_paragraph env ("You: " +:+ msg_content message) "You"
  else make_paragraph env ("AgroPro: " +:+ msg_content message) "AgroPro".

(** The loop of lines 191-196 over the messages still to visit, [story]
    being the list built so far. *)
Fixpoint export_loop (env : Env) (story : list flowable)
  (messages : list Message) : outcome (list flowable) :=
  match messages with
  | [] => Returns story
  | message :: rest =>
      match message_paragraph env message with
      | Raises e => Raises e
      | Returns paragraph =>
          export_loop env ((story ++ [paragraph]) ++ [Spacer 1 12]) rest
      end
  end.

(** The story that [export_conversation_to_pdf] hands to [doc.build]
    for [st.session_state.messages]. *)
Definition export_story (env : Env) (messages : list Message)
  : outcome (list flowable) :=
  export_loop env [] messages.

(** The text given to the paragraphs of a story, in order. *)
Definition paragraph_texts (story : list flowable) : list string :=
  flat_map (fun f => match f with
                     | Paragraph text _ => [text]
                     | Spacer _ _ => []
                     end) story.

(** The text that the export gives to the paragraph of a message. *)
Definition labelled (message : Message) : string :=
  if String.eqb (msg_role message) "user"
  then "You: " +:+ msg_content message
  else "AgroPro: " +:+ msg_content message.

(** The style of the paragraph of a message. *)
Definition style_of (message : Message) : string :=
  if String.eqb (msg_role message) "user" then "You" else "AgroPro".

(** The flowables of a message whose markup is accepted. *)
Definition message_flowables (m : Message) : list flowable :=
  [Paragraph (labelled m) (style_of m); Spacer 1 12].

(** ** Vocabulary of the further properties *)

(** [m] writes no temporary file. *)
Definition keeps_tmpfs {A} (m : M A) : Prop :=
  forall w, tmpfs (after m w) = tmpfs w.

(** The calls of the index build for a list of batches: [from_texts] for
    the first, [add_texts] for the others. *)
Definition build_calls (batches : list (list string)) : list call :=
  match batches with
  | [] => []
  | first :: others => call_from_texts first :: map call_add_texts others
  end.

(** A longer text file, a file whose second read fails, and a session
    with one message and an empty default buffer. *)
Definition guide_txt : UploadedFile :=
  mkUpload "guide.txt" 21 [Returns "Maize needs "; Returns "nitrogen."].

Definition broken_txt : UploadedFile :=
  mkUpload "broken.txt" 9
    [Returns "Maize"; Raises (OtherError "connection reset")].

Definition sample_session : Session :=
  mkSession
    (mkHeap {[ 0%nat := [mkMessage "user" "hello" "12:00"] ]}
            {[ 0%nat := add_message (new_buffer default_max_turns) "user" "hello" ]})
    (mkKeys 0 0 None).

(** An environment whose [pickle.dump] fails, one whose LLM back end
    fails, and one whose [os.unlink] fails. *)
Definition failing_dump_env : Env := {|
  env_similarity_search := env_similarity_search sample_env;
  env_generate_content := env_generate_content sample_env;
  env_strftime := env_strftime sample_env;
  env_splitext := env_splitext sample_env;
  env_NamedTemporaryFile := env_NamedTemporaryFile sample_env;
  env_pdf_pages := env_pdf_pages sample_env;
  env_unstructured := env_unstructured sample_env;
  env_readlines := env_readlines sample_env;
  env_split_text := env_split_text sample_env;
  env_embed := env_embed sample_env;
  env_unlink := env_unlink sample_env;
  env_pickle_dump := fun _ => Raises (OtherError "disk full");
  env_pickle_flushed := env_pickle_flushed sample_env;
  env_listdir := env_listdir sample_env;
  env_remove := env_remove sample_env;
  env_paragraph_markup := env_paragraph_markup sample_env
|}.

Definition failing_llm_env : Env := {|
  env_similarity_search := env_similarity_search sample_env;
  env_generate_content := fun _ => Raises (OtherError "quota exceeded");
  env_strftime := env_strftime sample_env;
  env_splitext := env_splitext sample_env;
  env_NamedTemporaryFile := env_NamedTemporaryFile sample_env;
  env_pdf_pages := env_pdf_pages sample_env;
  env_unstructured := env_unstructured sample_env;
  env_readlines := env_readlines sample_env;
  env_split_text := env_split_text sample_env;
  env_embed := env_embed sample_env;
  env_unlink := env_unlink sample_env;
  env_pickle_dump := env_pickle_dump sample_env;
  env_pickle_flushed := env_pickle_flushed sample_env;
  env_listdir := env_listdir sample_env;
  env_remove := env_remove sample_env;
  env_paragraph_markup := env_paragraph_markup sample_env
|}.

(** What the handlers of [process_document] show for an exception. *)
Definition ingestion_report (e : exn) : list ui_event :=
  match e with
  | ImportError _ =>
      [st_error "Error: Missing dependencies for processing this file type.";
       st_info "Please install the required packages by running:";
       st_code "pip install pypdf faiss-cpu"]
  | AttributeError _ | OtherError _ =>
      [st_error ("An error occurred while processing the document: "
                 +:+ str_exn e)]
  end.

(** An environment whose text reader fails. *)
Definition failing_parser_env : Env := {|
  env_similarity_search := env_similarity_search sample_env;
  env_generate_content := env_generate_content sample_env;
  env_strftime := env_strftime sample_env;
  env_splitext := env_splitext sample_env;
  env_NamedTemporaryFile := env_NamedTemporaryFile sample_env;
  env_pdf_pages := env_pdf_pages sample_env;
  env_unstructured := env_unstructured sample_env;
  env_readlines := fun _ => Raises (OtherError "'utf-8' codec can't decode byte");
  env_split_text := env_split_text sample_env;
  env_embed := env_embed sample_env;
  env_unlink := env_unlink sample_env;
  env_pickle_dump := env_pickle_dump sample_env;
  env_pickle_flushed := env_pickle_flushed sample_env;
  env_listdir := env_listdir sample_env;
  env_remove := env_remove sample_env;
  env_paragraph_markup := env_paragraph_markup sample_env
|}.

(** The attribute is absent for [hasattr]: it is missing, or its getter
    raises [AttributeError]. *)
Definition absent {A} (a : attr A) : Prop :=
  a = attr_missing \/ exists msg, a = attr_raises (AttributeError msg).

(** A response whose [text] cannot be read, and which has two parts; an
    environment whose LLM back end returns it. *)
Definition parts_response : Response :=
  mkResponse "GenerateContentResponse"
    (attr_raises (AttributeError "'GenerateContentResponse' object has no attribute 'text'"))
    (attr_value [mkPart "Part" (attr_value "Sow"); mkPart "Part" (attr_value "in May.")])
    (Returns "response").

Definition parts_env : Env := {|
  env_similarity_search := env_similarity_search sample_env;
  env_generate_content := fun _ => Returns parts_response;
  env_strftime := env_strftime sample_env;
  env_splitext := env_splitext sample_env;
  env_NamedTemporaryFile := env_NamedTemporaryFile sample_env;
  env_pdf_pages := env_pdf_pages sample_env;
  env_unstructured := env_unstructured sample_env;
  env_readlines := env_readlines sample_env;
  env_split_text := env_split_text sample_env;
  env_embed := env_embed sample_env;
  env_unlink := env_unlink sample_env;
  env_pickle_dump := env_pickle_dump sample_env;
  env_pickle_flushed := env_pickle_flushed sample_env;
  env_listdir := env_listdir sample_env;
  env_remove := env_remove sample_env;
  env_paragraph_markup := env_paragraph_markup sample_env
|}.

(** A message log of three messages; the role of the last one is neither
    "user" nor "assistant". *)
Definition sample_log : list Message :=
  [mkMessage "user" "When to sow maize?" "12:00";
   mkMessage "assistant" "Sow in May." "12:00";
   mkMessage "system" "Welcome back." "12:05"].

(** A working directory at day 7: two files that match the pattern of the
    sweep, seven and three days old, the saved index and a file of
    another name. *)
Definition swept_world : World :=
  mkWorld None None [] (new_buffer default_max_turns) [] [] empty
    {[ "vectorstore_a.pkl" := mkDiskFile 0 (Bytes "");
       "vectorstore_b.pkl" := mkDiskFile (4 * microseconds_per_day) (Bytes "");
       "vectorstore.pkl" := mkDiskFile 0 (Pickled sample_store);
       "notes.txt" := mkDiskFile 0 (Bytes "sow in May") ]}
    (7 * microseconds_per_day).

(** An environment whose [os.remove] fails on one entry, a directory, and
    one whose markup parser refuses an opening angle bracket. *)
Definition failing_remove_env : Env := {|
  env_similarity_search := env_similarity_search sample_env;
  env_generate_content := env_generate_content sample_env;
  env_strftime := env_strftime sample_env;
  env_splitext := env_splitext sample_env;
  env_NamedTemporaryFile := env_NamedTemporaryFile sample_env;
  env_pdf_pages := env_pdf_pages sample_env;
  env_unstructured := env_unstructured sample_env;
  env_readlines := env_readlines sample_env;
  env_split_text := env_split_text sample_env;
  env_embed := env_embed sample_env;
  env_unlink := env_unlink sample_env;
  env_pickle_dump := env_pickle_dump sample_env;
  env_pickle_flushed := env_pickle_flushed sample_env;
  env_listdir := env_listdir sample_env;
  env_remove := fun name =>
    if String.eqb name "vectorstore_b.pkl"
    then Raises (OtherError "[Errno 21] Is a directory: 'vectorstore_b.pkl'")
    else Returns tt;
  env_paragraph_markup := env_paragraph_markup sample_env
|}.

Definition strict_markup_env : Env := {|
  env_similarity_search := env_similarity_search sample_env;
  env_generate_content := env_generate_content sample_env;
  env_strftime := env_strftime sample_env;
  env_splitext := env_splitext sample_env;
  env_NamedTemporaryFile := env_NamedTemporaryFile sample_env;
  env_pdf_pages := env_pdf_pages sample_env;
  env_unstructured := env_unstructured sample_env;
  env_readlines := env_readlines sample_env;
  env_split_text := env_split_text sample_env;
  env_embed := env_embed sample_env;
  env_unlink := env_unlink sample_env;
  env_pickle_dump := env_pickle_dump sample_env;
  env_pickle_flushed := env_pickle_flushed sample_env;
  env_listdir := env_listdir sample_env;
  env_remove := env_remove sample_env;
  env_paragraph_markup := fun text =>
    if mentions "<"%char text
    then Raises (OtherError "Parse error: saw </para> instead of expected </b>")
    else Returns tt
|}.

(** * Properties *)

(** ** Conversation buffer *)

Lemma slice_from_negative {A} (n : Z) (l : list A) :
  0 < n -> slice_from (- n) l = lastn (Z.to_nat n) l.
Proof.
  intros Hn. unfold slice_from, lastn.
  destruct (Z.ltb_spec (- n) 0) as [_ | ?]; [| lia].
  f_equal. lia.
Qed.

Lemma slice_from_zero {A} (l : list A) : slice_from 0 l = l.
Proof.
  unfold slice_from. simpl.
  rewrite Z.min_l by lia. reflexivity.
Qed.

Lemma lastn_length {A} (n : nat) (l : list A) :
  length (lastn n l) = Nat.min n (length l).
Proof. unfold lastn. rewrite length_drop. lia. Qed.

Lemma lastn_all {A} (n : nat) (l : list A) :
  (length l <= n)%nat -> lastn n l = l.
Proof.
  intros H. unfold lastn.
  replace (length l - n)%nat with 0%nat by lia. reflexivity.
Qed.

Lemma lastn_app_lastn {A} (n : nat) (l l' : list A) :
  lastn n (lastn n l ++ l') = lastn n (l ++ l').
Proof.
  destruct (Nat.le_gt_cases (length l) n) as [Hle | Hgt].
  - rewrite (lastn_all n l) by assumption. reflexivity.
  - unfold lastn at 1 3.
    rewrite !length_app, lastn_length.
    replace (Nat.min n (length l) + length l' - n)%nat
      with (length l') by lia.
    replace (length l + length l' - n)%nat
      with ((length l - n) + length l')%nat by lia.
    rewrite <- drop_drop.
    rewrite (drop_app_le l l' (length l - n)) by lia.
    reflexivity.
Qed.

(** For a positive [max_turns], [add_message] keeps the latest
    [2 * max_turns] turns of the extended list. *)
Lemma add_message_buffer (cb : ConversationBuffer) (r c : string) :
  1 <= max_turns cb ->
  buffer (add_message cb r c)
  = lastn (Z.to_nat (2 * max_turns cb)) (buffer cb ++ [mkTurn r c]).
Proof.
  intros Hm. unfold add_message.
  destruct (Z.gtb_spec (Z.of_nat (length (buffer cb ++ [mkTurn r c])))
              (max_turns cb * 2)) as [Hgt | Hle]; simpl.
  - replace (- max_turns cb * 2) with (- (2 * max_turns cb)) by lia.
    apply slice_from_negative. lia.
  - symmetry. apply lastn_all. lia.
Qed.

Lemma add_message_max_turns (cb : ConversationBuffer) (r c : string) :
  max_turns (add_message cb r c) = max_turns cb.
Proof. unfold add_message. destruct (_ >? _); reflexivity. Qed.

Lemma add_messages_max_turns (ts : list Turn) (cb : ConversationBuffer) :
  max_turns (add_messages cb ts) = max_turns cb.
Proof.
  revert cb. induction ts as [| t ts IH]; intros cb; simpl; [reflexivity |].
  unfold add_messages in *. simpl. rewrite IH. apply add_message_max_turns.
Qed.

(** The length bound holds after every call, whatever the buffer held. *)
Lemma add_message_bound (cb : ConversationBuffer) (r c : string) :
  1 <= max_turns cb ->
  Z.of_nat (length (buffer (add_message cb r c))) <= 2 * max_turns cb.
Proof.
  intros Hm. rewrite add_message_buffer, lastn_length by assumption. lia.
Qed.

Lemma add_messages_buffer (ts : list Turn) (cb : ConversationBuffer) :
  1 <= max_turns cb ->
  Z.of_nat (length (buffer cb)) <= 2 * max_turns cb ->
  buffer (add_messages cb ts)
  = lastn (Z.to_nat (2 * max_turns cb)) (buffer cb ++ ts).
Proof.
  revert cb. induction ts as [| t ts IH]; intros cb Hm Hlen.
  - simpl. rewrite app_nil_r. symmetry. apply lastn_all. lia.
  - unfold add_messages in *. simpl.
    rewrite IH.
    + rewrite add_message_max_turns, add_message_buffer by assumption.
      destruct t as [r c]. simpl.
      rewrite lastn_app_lastn, <- app_assoc. reflexivity.
    + rewrite add_message_max_turns. assumption.
    + rewrite add_message_max_turns. apply add_message_bound. assumption.
Qed.

(** With a positive [max_turns], after at least [2 * max_turns + 1] calls
    on a new buffer the buffer holds exactly the latest [2 * max_turns]
    turns, in the order added. *)
Lemma add_messages_keeps_latest (m : Z) (ts : list Turn) :
  1 <= m ->
  2 * m + 1 <= Z.of_nat (length ts) ->
  Z.of_nat (length (buffer (add_messages (new_buffer m) ts))) = 2 * m
  /\ buffer (add_messages (new_buffer m) ts)
     = drop (length ts - Z.to_nat (2 * m)) ts.
Proof.
  intros Hm Hlen.
  rewrite add_messages_buffer by (simpl; lia). simpl.
  split; [rewrite lastn_length; lia | reflexivity].
Qed.

Lemma add_messages_keeps_latest_example :
  buffer (add_messages (new_buffer 1)
            [mkTurn "user" "a"; mkTurn "assistant" "b"; mkTurn "user" "c"])
  = [mkTurn "assistant" "b"; mkTurn "user" "c"].
Proof. reflexivity. Qed.

(** With [max_turns = 0] the test [len(self.buffer) > 0] succeeds, but the
    slice [self.buffer[-0:]] is the whole list: nothing is evicted. *)
Lemma add_message_zero_max_turns (cb : ConversationBuffer) (r c : string) :
  max_turns cb = 0 ->
  buffer (add_message cb r c) = buffer cb ++ [mkTurn r c].
Proof.
  intros H0. unfold add_message. rewrite H0. simpl.
  destruct (_ >? _); simpl; [apply slice_from_zero | reflexivity].
Qed.

Lemma add_messages_zero_max_turns (ts : list Turn) (cb : ConversationBuffer) :
  max_turns cb = 0 ->
  buffer (add_messages cb ts) = buffer cb ++ ts.
Proof.
  revert cb. induction ts as [| t ts IH]; intros cb H0.
  - simpl. rewrite app_nil_r. reflexivity.
  - unfold add_messages in *. simpl.
    rewrite IH by (rewrite add_message_max_turns; assumption).
    rewrite add_message_zero_max_turns by assumption.
    destruct t. simpl. rewrite <- app_assoc. reflexivity.
Qed.

(** C3, at [max_turns = 0]: a buffer built by [ConversationBuffer(0)]
    keeps every turn it is given, so after [2 * 0 + 1 = 1] call it holds
    one turn and not [2 * 0 = 0], and the bound [len(buffer) <= 0], true
    of the new buffer, is lost by the first [add_message]. *)
Theorem conversation_buffer_zero_max_turns_never_evicts :
  forall ts : list Turn,
    buffer (add_messages (new_buffer 0) ts) = ts
    /\ (Z.of_nat (length (buffer (new_buffer 0))) <= 2 * 0
        /\ buffer (add_message (new_buffer 0) "user" "hi")
           = [mkTurn "user" "hi"]
        /\ 2 * 0 < Z.of_nat (length (buffer (add_message (new_buffer 0) "user" "hi")))).
Proof.
  intros ts. split.
  - apply (add_messages_zero_max_turns ts (new_buffer 0)). reflexivity.
  - repeat split; simpl; lia.
Qed.

(** *** Rendering *)

Lemma append_assoc (a b c : string) : (a +:+ b) +:+ c = a +:+ (b +:+ c).
Proof. induction a as [| x a IH]; simpl; [reflexivity | rewrite IH; reflexivity]. Qed.

Lemma append_empty_r (a : string) : a +:+ "" = a.
Proof. induction a as [| x a IH]; simpl; [reflexivity | rewrite IH; reflexivity]. Qed.

Lemma get_context_render_lines (cb : ConversationBuffer) :
  get_context cb = render_lines (buffer cb).
Proof.
  unfold get_context. induction (buffer cb) as [| t rest IH]; [reflexivity |].
  simpl. destruct rest as [| t' rest]; [reflexivity |].
  rewrite IH. unfold render_turn. rewrite !append_assoc. reflexivity.
Qed.

Lemma join_snoc (sep : string) (l : list string) (x : string) :
  join sep (l ++ [x])
  = match l with [] => x | _ :: _ => join sep l +:+ sep +:+ x end.
Proof.
  induction l as [| y l IH]; [reflexivity |].
  destruct l as [| z l]; [reflexivity |].
  change (join sep ((y :: z :: l) ++ [x]))
    with (y +:+ sep +:+ join sep ((z :: l) ++ [x])).
  rewrite IH.
  change (join sep (y :: z :: l)) with (y +:+ sep +:+ join sep (z :: l)).
  rewrite !append_assoc. reflexivity.
Qed.

Lemma mentions_app (c : ascii) (a b : string) :
  mentions c (a +:+ b) = mentions c a || mentions c b.
Proof.
  induction a as [| x a IH]; [reflexivity |].
  simpl. rewrite IH, orb_assoc. reflexivity.
Qed.

Lemma split_on_without (c : ascii) (a : string) :
  mentions c a = false -> split_on c a = [a].
Proof.
  induction a as [| x a IH]; [reflexivity |]. simpl.
  intros H. apply orb_false_iff in H as [Hx Ha].
  rewrite Hx, IH by assumption. reflexivity.
Qed.

Lemma split_on_before_separator (c : ascii) (a b : string) :
  mentions c a = false ->
  split_on c (a +:+ String c b) = a :: split_on c b.
Proof.
  induction a as [| x a IH]; simpl.
  - intros _. rewrite bool_decide_eq_true_2 by reflexivity. reflexivity.
  - intros H. apply orb_false_iff in H as [Hx Ha].
    rewrite Hx, IH by assumption. reflexivity.
Qed.

(** Splitting a joined list gives the list back, when no element holds
    the separator. *)
Lemma split_on_join (c : ascii) (l : list string) :
  l <> [] ->
  Forall (fun piece => mentions c piece = false) l ->
  split_on c (join (String c "") l) = l.
Proof.
  intros Hne Hall. induction Hall as [| piece l Hpiece Hall IH]; [congruence |].
  destruct l as [| piece' l].
  - simpl. apply split_on_without. assumption.
  - change (join (String c "") (piece :: piece' :: l))
      with (piece +:+ String c (join (String c "") (piece' :: l))).
    rewrite split_on_before_separator by assumption.
    rewrite IH by discriminate. reflexivity.
Qed.

(** C4: rendering of the buffer.  The context of a new buffer is empty;
    one user turn [X] then one assistant turn [Y] give
    ["user: X\nassistant: Y"]; in general the context is the retained
    turns, oldest first, each as ["{role}: {content}"], joined by
    newlines, so that a turn appended to a buffer adds its line at the
    end; and the context depends on the turn sequence only. *)
Theorem get_context_renders_turns :
  (forall m, get_context (new_buffer m) = "")
  /\ (forall X Y : string,
        get_context
          (add_message (add_message (new_buffer default_max_turns) "user" X)
             "assistant" Y)
        = "user: " +:+ X +:+ newline +:+ "assistant: " +:+ Y)
  /\ (forall cb, get_context cb = render_lines (buffer cb))
  /\ (forall cb,
        get_context cb
        = join newline (map (fun t => role t +:+ ": " +:+ content t) (buffer cb)))
  /\ (forall ts t m,
        get_context (mkBuffer (ts ++ [t]) m)
        = match ts with
          | [] => role t +:+ ": " +:+ content t
          | _ :: _ => get_context (mkBuffer ts m) +:+ newline
                      +:+ (role t +:+ ": " +:+ content t)
          end)
  /\ (forall cb,
        buffer cb <> [] ->
        Forall (fun t => mentions "010" (role t) = false
                         /\ mentions "010" (content t) = false) (buffer cb) ->
        split_on "010" (get_context cb)
        = map (fun t => role t +:+ ": " +:+ content t) (buffer cb))
  /\ (forall cb cb', buffer cb = buffer cb' -> get_context cb = get_context cb').
Proof.
  split; [| split; [| split; [| split; [| split; [| split]]]]].
  - intros m. reflexivity.
  - intros X Y. cbv [get_context add_message new_buffer default_max_turns].
    simpl. cbv [render_turn role content join String.concat String.append newline].
    reflexivity.
  - apply get_context_render_lines.
  - intros cb. reflexivity.
  - intros ts t m. unfold get_context. simpl.
    rewrite map_app. simpl. fold (join newline (map render_turn ts ++ [render_turn t])).
    rewrite join_snoc.
    destruct ts; reflexivity.
  - intros cb Hne Hall. unfold get_context, newline.
    apply (split_on_join "010" (map render_turn (buffer cb))).
    + destruct (buffer cb); [congruence | discriminate].
    + apply Forall_fmap. eapply Forall_impl; [exact Hall |].
      intros t [Hr Hc]. simpl. unfold render_turn.
      rewrite !mentions_app, Hr, Hc. reflexivity.
  - intros cb cb' H. unfold get_context. rewrite H. reflexivity.
Qed.

(** ** Frame: what an effectful function leaves alone *)

Lemma keeps_ret {A} (a : A) : keeps_session (ret a).
Proof. intros w. reflexivity. Qed.

Lemma keeps_raise {A} (e : exn) : keeps_session (@raise A e).
Proof. intros w. reflexivity. Qed.

Lemma keeps_lift {A} (r : outcome A) : keeps_session (lift r).
Proof. intros w. reflexivity. Qed.

Lemma keeps_get {A} (proj : World -> A) : keeps_session (get proj).
Proof. intros w. reflexivity. Qed.

Lemma keeps_log_ui (e : ui_event) : keeps_session (log_ui e).
Proof. intros w. reflexivity. Qed.

Lemma keeps_log_call (c : call) : keeps_session (log_call c).
Proof. intros w. reflexivity. Qed.

Lemma keeps_set_tmpfs f : keeps_session (set_tmpfs f).
Proof. intros w. reflexivity. Qed.

Lemma keeps_set_cwd f : keeps_session (set_cwd f).
Proof. intros w. reflexivity. Qed.

Lemma keeps_bind {A B} (m : M A) (f : A -> M B) :
  keeps_session m -> (forall a, keeps_session (f a)) ->
  keeps_session (bind m f).
Proof.
  intros Hm Hf w. unfold bind.
  specialize (Hm w). destruct (m w) as [[a | e] w1]; simpl in *.
  - rewrite Hf. assumption.
  - assumption.
Qed.

Lemma keeps_try_except {A} (m : M A) (h : exn -> M A) :
  keeps_session m -> (forall e, keeps_session (h e)) ->
  keeps_session (try_except m h).
Proof.
  intros Hm Hh w. unfold try_except.
  specialize (Hm w). destruct (m w) as [[a | e] w1]; simpl in *.
  - assumption.
  - rewrite Hh. assumption.
Qed.

Lemma keeps_finally {A} (m : M A) (fin : M unit) :
  keeps_session m -> keeps_session fin -> keeps_session (finally m fin).
Proof.
  intros Hm Hfin w. unfold finally.
  specialize (Hm w). destruct (m w) as [r w1]. simpl in Hm.
  specialize (Hfin w1). destruct (fin w1) as [[u | e] w2]; simpl in *; congruence.
Qed.

Create HintDb frame.
#[local] Hint Resolve keeps_ret keeps_raise keeps_lift keeps_get keeps_log_ui
  keeps_log_call keeps_set_tmpfs keeps_set_cwd : frame.
#[local] Hint Extern 2 (keeps_session (bind _ _)) =>
  apply keeps_bind; [| intros ?] : frame.
#[local] Hint Extern 2 (keeps_session (try_except _ _)) =>
  apply keeps_try_except; [| intros ?] : frame.
#[local] Hint Extern 2 (keeps_session (finally _ _)) =>
  apply keeps_finally : frame.
#[local] Hint Extern 3 (keeps_session (match ?x with _ => _ end)) =>
  destruct x : frame.
#[local] Hint Extern 3 (keeps_session (if ?x then _ else _)) =>
  destruct x : frame.

Ltac frame := unfold get_current_time; auto 40 with frame.

(** ** Response fetcher *)

Lemma keeps_similarity_search env vs q k :
  keeps_session (similarity_search env vs q k).
Proof. unfold similarity_search. frame. Qed.

Lemma keeps_generate_content env p : keeps_session (generate_content env p).
Proof. unfold generate_content. frame. Qed.

#[local] Hint Resolve keeps_similarity_search keeps_generate_content : frame.

Lemma keeps_get_gemini_response env cb prompt vs :
  keeps_session (get_gemini_response env cb prompt vs).
Proof. unfold get_gemini_response. frame. Qed.

#[local] Hint Resolve keeps_get_gemini_response : frame.

(** The failures of the generation are caught: once the prompt is
    assembled, [get_gemini_response] returns. *)
Lemma generation_never_raises env (full_context : string) :
  never_raises
    (try_except
       (let* response := generate_content env full_context in
        lift (reply_text response))
       (fun e =>
          run log_ui (st_error ("An error occurred while generating the response: "
                                +:+ str_exn e)) then
          ret apology)).
Proof.
  intros w. unfold try_except, generate_content, bind, log_call, lift, log_ui, ret.
  destruct (env_generate_content env full_context) as [resp | e]; simpl.
  - destruct (reply_text resp) as [s | e]; simpl; eauto.
  - eauto.
Qed.

(** A failure of the generation yields the apology. *)
Lemma generation_failure_apology env cb prompt w :
  (forall p, exists e, env_generate_content env p = Raises e) ->
  (get_gemini_response env cb prompt None w).1 = Returns apology.
Proof.
  intros Hfail.
  unfold get_gemini_response, try_except, generate_content, bind, log_call,
    lift, log_ui, ret. simpl.
  destruct (Hfail (ungrounded_prompt (get_context cb) prompt)) as [e He].
  rewrite He. reflexivity.
Qed.

Lemma ungrounded_never_raises env cb prompt :
  never_raises (get_gemini_response env cb prompt None).
Proof.
  intros w. unfold get_gemini_response.
  change (bind (ret ?x) ?f w) with (f x w). cbv beta.
  apply generation_never_raises.
Qed.

(** C1, at a failing retrieval: [similarity_search] is called before the
    [try] block of [get_gemini_response], so its exception leaves the
    function, with the session untouched and nothing shown to the user;
    [chat_interface] calls [get_gemini_response] directly. *)
Theorem get_gemini_response_retrieval_failure_raises :
  forall env cb prompt vs w e,
    env_similarity_search env vs prompt 2 = Raises e ->
    (get_gemini_response env cb prompt (Some vs) w).1 = Raises e
    /\ ui (get_gemini_response env cb prompt (Some vs) w).2 = ui w
    /\ (session_vectorstore w = Some vs ->
        (chat_round env prompt w).1 = Raises e).
Proof.
  intros env cb prompt vs w e Hfail.
  assert (Hrun : forall cb' w',
             get_gemini_response env cb' prompt (Some vs) w'
             = (Raises e, (log_call (call_similarity_search prompt 2) w').2)).
  { intros cb' w'.
    unfold get_gemini_response, similarity_search, bind, log_call, lift.
    rewrite Hfail. reflexivity. }
  split; [| split].
  - rewrite Hrun. reflexivity.
  - rewrite Hrun. reflexivity.
  - intros Hvs. unfold chat_round, get_current_time.
    cbv [bind get ret log_ui set_session_messages
           set_session_conversation_buffer].
    simpl. rewrite Hvs. rewrite Hrun. reflexivity.
Qed.

(** [safe_get_gemini_response] catches what [get_gemini_response] lets
    through, and answers with an apology of its own. *)
Lemma safe_get_gemini_response_never_raises env cb prompt vs :
  never_raises (safe_get_gemini_response env cb prompt vs).
Proof.
  intros w. unfold safe_get_gemini_response, try_except.
  destruct (get_gemini_response env cb prompt vs w) as [[s | e] w1]; simpl.
  - eauto.
  - unfold bind, log_ui, ret. simpl. eauto.
Qed.

Lemma safe_get_gemini_response_retrieval_failure env cb prompt vs w e :
  env_similarity_search env vs prompt 2 = Raises e ->
  (safe_get_gemini_response env cb prompt (Some vs) w).1 = Returns safe_apology
  /\ safe_apology <> apology.
Proof.
  intros Hfail. split.
  - unfold safe_get_gemini_response, try_except, get_gemini_response,
      similarity_search, bind, log_call, lift, log_ui, ret.
    rewrite Hfail. reflexivity.
  - discriminate.
Qed.

(** C9: [get_gemini_response] writes no key of the session state: the
    conversation buffer and the message log are the same before and
    after, whatever the back ends do.  It reads the buffer through
    [get_context] only: two buffers with the same context give the same
    run.  The caller, [chat_interface], records the reply: after a chat
    round that returns, the buffer is the old one with the user turn and
    then the turn of the reply added, and the log has both messages. *)
Theorem get_gemini_response_keeps_conversation_state :
  forall env cb prompt vs w,
    session_conversation_buffer (get_gemini_response env cb prompt vs w).2
    = session_conversation_buffer w
    /\ session_messages (get_gemini_response env cb prompt vs w).2
       = session_messages w
    /\ (forall cb',
          get_context cb' = get_context cb ->
          get_gemini_response env cb' prompt vs w
          = get_gemini_response env cb prompt vs w)
    /\ ((chat_round env prompt w).1 = Returns tt ->
        exists reply w1,
          (get_gemini_response env
             (add_message (session_conversation_buffer w) "user" prompt)
             prompt (session_vectorstore w) w1).1 = Returns reply
          /\ session_conversation_buffer (chat_round env prompt w).2
             = add_message
                 (add_message (session_conversation_buffer w) "user" prompt)
                 "assistant" reply
          /\ session_messages (chat_round env prompt w).2
             = session_messages w
               ++ [mkMessage "user" prompt (env_strftime env (now w))]
               ++ [mkMessage "assistant" reply
                     (env_strftime env
                        (now (get_gemini_response env
                                (add_message (session_conversation_buffer w)
                                   "user" prompt)
                                prompt (session_vectorstore w) w1).2))]).
Proof.
  intros env cb prompt vs w.
  pose proof (keeps_get_gemini_response env cb prompt vs w) as Hkeep.
  unfold session in Hkeep.
  split; [congruence | split; [congruence | split]].
  - intros cb' Hctx. unfold get_gemini_response. rewrite Hctx. reflexivity.
  - unfold chat_round, get_current_time.
    cbv [bind get ret log_ui set_session_messages
           set_session_conversation_buffer].
    simpl.
    match goal with
    | |- context [get_gemini_response env ?b prompt ?v ?w0] =>
        pose proof (keeps_get_gemini_response env b prompt v w0) as Hk;
        destruct (get_gemini_response env b prompt v w0) as [[reply | e] w2] eqn:Hrun
    end; simpl; [| discriminate].
    intros _. unfold session in Hk. simpl in Hk.
    eexists reply, _. rewrite Hrun. simpl.
    injection Hk as Hv Hl Hm Hb.
    split; [reflexivity |]. split.
    + rewrite Hb. reflexivity.
    + rewrite Hm, <- app_assoc. reflexivity.
Qed.

(** *** Prompt assembly *)

Lemma prefix_before_separator (c : ascii) (l x b : string) :
  mentions c l = false ->
  String.prefix l (x +:+ String c b) = String.prefix l x.
Proof.
  revert l. induction x as [| y x IH]; intros l Hl.
  - destruct l as [| d l]; [reflexivity |]. simpl in *.
    apply orb_false_iff in Hl as [Hd _].
    apply bool_decide_eq_false in Hd.
    destruct (ascii_dec d c); [contradiction | reflexivity].
  - destruct l as [| d l]; [reflexivity |]. simpl in *.
    apply orb_false_iff in Hl as [_ Hl].
    destruct (ascii_dec d y); [apply IH; assumption | reflexivity].
Qed.

(** A label without the character [c] occurs in [a c b] only inside [a]
    or inside [b]. *)
Lemma contains_across_separator (c : ascii) (l a b : string) :
  mentions c l = false ->
  contains l (a +:+ String c b) = contains l a || contains l b.
Proof.
  intros Hl. induction a as [| y a IH].
  - change ("" +:+ String c b) with (String c b).
    change (contains l (String c b))
      with (String.prefix l ("" +:+ String c b) || contains l b).
    rewrite prefix_before_separator by assumption.
    simpl. rewrite orb_false_r. reflexivity.
  - change (String y a +:+ String c b) with (String y (a +:+ String c b)).
    change (contains l (String y (a +:+ String c b)))
      with (String.prefix l (String y a +:+ String c b)
            || contains l (a +:+ String c b)).
    rewrite prefix_before_separator, IH by assumption.
    simpl. rewrite orb_assoc. reflexivity.
Qed.

Lemma contains_after_other_char (l s : string) (d x : ascii) :
  d <> x -> contains (String d l) (String x s) = contains (String d l) s.
Proof.
  intros Hne. simpl. destruct (ascii_dec d x); [contradiction | reflexivity].
Qed.

Lemma prefix_iff_app (l s : string) :
  String.prefix l s = true <-> exists post, s = l +:+ post.
Proof.
  revert s. induction l as [| d l IH]; intros s.
  - split; [intros _; exists s; reflexivity | intros _; destruct s; reflexivity].
  - destruct s as [| x s]; simpl.
    + split; [discriminate | intros [post H]; discriminate].
    + destruct (ascii_dec d x) as [-> | Hne].
      * rewrite IH. split; intros [post H]; exists post.
        -- rewrite H. reflexivity.
        -- injection H as H. exact H.
      * split; [discriminate | intros [post H]; injection H as H _; congruence].
Qed.

Lemma contains_nil (l : string) :
  contains l "" = String.prefix l "" || false.
Proof. reflexivity. Qed.

Lemma contains_cons (l : string) (x : ascii) (s : string) :
  contains l (String x s) = String.prefix l (String x s) || contains l s.
Proof. reflexivity. Qed.

(** [contains] decides the occurrence of one string in another. *)
Lemma contains_iff (l s : string) :
  contains l s = true <-> exists pre post, s = pre +:+ l +:+ post.
Proof.
  split.
  - induction s as [| x s IH].
    + rewrite contains_nil, orb_false_r. intros H.
      apply prefix_iff_app in H as [post H]. exists "", post. exact H.
    + rewrite contains_cons, orb_true_iff. intros [H | H].
      * apply prefix_iff_app in H as [post H]. exists "", post. exact H.
      * destruct (IH H) as (pre & post & Hs).
        exists (String x pre), post. rewrite Hs. reflexivity.
  - intros (pre & post & ->). revert post.
    induction pre as [| x pre IH]; intros post.
    + assert (H : String.prefix l (l +:+ post) = true)
        by (apply prefix_iff_app; exists post; reflexivity).
      change ("" +:+ l +:+ post) with (l +:+ post).
      destruct (l +:+ post).
      * rewrite contains_nil, H. reflexivity.
      * rewrite contains_cons, H. reflexivity.
    + change (String x pre +:+ l +:+ post) with (String x (pre +:+ l +:+ post)).
      rewrite contains_cons, IH. apply orb_true_r.
Qed.

Lemma document_label_not_in_base_context :
  contains document_label base_context = false.
Proof. vm_compute. reflexivity. Qed.

Lemma document_label_after_query_label (prompt : string) :
  contains document_label (query_label +:+ prompt)
  = contains document_label prompt.
Proof.
  unfold document_label, query_label.
  cbv [String.append].
  repeat (rewrite contains_after_other_char by discriminate).
  reflexivity.
Qed.

(** The ungrounded prompt mentions the label of the document section only
    where the conversation or the user wrote it. *)
Lemma ungrounded_prompt_label (ctx prompt : string) :
  contains document_label (ungrounded_prompt ctx prompt)
  = contains document_label ctx || contains document_label prompt.
Proof.
  unfold ungrounded_prompt, newline.
  repeat change (String "010" "" +:+ ?s) with (String "010"%char s).
  rewrite !contains_across_separator by reflexivity.
  rewrite document_label_not_in_base_context.
  change (String "010" (query_label +:+ prompt))
    with ("" +:+ String "010" (query_label +:+ prompt)).
  rewrite contains_across_separator by reflexivity.
  rewrite document_label_after_query_label. reflexivity.
Qed.

Lemma contains_app_r (l a b : string) :
  contains l b = true -> contains l (a +:+ b) = true.
Proof.
  intros H. induction a as [| y a IH]; [assumption |].
  change (String y a +:+ b) with (String y (a +:+ b)).
  simpl. rewrite IH. apply orb_true_r.
Qed.

Lemma contains_prefix (l b : string) : contains l (l +:+ b) = true.
Proof.
  assert (H : String.prefix l (l +:+ b) = true).
  { induction l as [| d l IH]; [destruct b; reflexivity |]. simpl.
    destruct (ascii_dec d d); [assumption | contradiction]. }
  destruct (l +:+ b); simpl in *; rewrite H; reflexivity.
Qed.

Lemma grounded_prompt_label (ctx docs prompt : string) :
  contains document_label (grounded_prompt ctx docs prompt) = true.
Proof.
  unfold grounded_prompt.
  do 5 apply contains_app_r. apply contains_prefix.
Qed.

(** C2: the prompt handed to the LLM.  Without a vectorstore no retrieval
    is made and the prompt is the preamble, the rendered buffer and the
    labelled query, in this order, with no document section: the label
    "Relevant document content:" occurs in it only if the conversation or
    the query itself contains it.  With a vectorstore, one retrieval with
    [k = 2] is made for the prompt, and the prompt is the preamble, the
    rendered buffer, the labelled section made of the retrieved chunks in
    the order returned, joined by newlines, and the labelled query; when
    the index answers with the first [k] chunks of its best-first ranking,
    these are the top two. *)
Theorem get_gemini_response_prompt :
  forall env cb prompt w,
    trace (get_gemini_response env cb prompt None w).2
    = trace w
      ++ [call_generate_content
            (base_context +:+ newline +:+ get_context cb +:+ newline +:+ newline
             +:+ "User query: " +:+ prompt)]
    /\ contains "Relevant document content:"
         (base_context +:+ newline +:+ get_context cb +:+ newline +:+ newline
          +:+ "User query: " +:+ prompt)
       = contains "Relevant document content:" (get_context cb)
         || contains "Relevant document content:" prompt
    /\ (forall vs docs,
          env_similarity_search env vs prompt 2 = Returns docs ->
          trace (get_gemini_response env cb prompt (Some vs) w).2
          = trace w
            ++ [call_similarity_search prompt 2;
                call_generate_content
                  (base_context +:+ newline +:+ get_context cb
                   +:+ newline +:+ newline
                   +:+ "Relevant document content:" +:+ newline
                   +:+ join newline (map page_content docs)
                   +:+ newline +:+ newline
                   +:+ "User query: " +:+ prompt)])
    /\ (forall vs ranking,
          (forall k, env_similarity_search env vs prompt k
                     = Returns (take (Z.to_nat k) ranking)) ->
          trace (get_gemini_response env cb prompt (Some vs) w).2
          = trace w
            ++ [call_similarity_search prompt 2;
                call_generate_content
                  (base_context +:+ newline +:+ get_context cb
                   +:+ newline +:+ newline
                   +:+ "Relevant document content:" +:+ newline
                   +:+ join newline (map page_content (take 2 ranking))
                   +:+ newline +:+ newline
                   +:+ "User query: " +:+ prompt)])
    /\ (forall docs,
          contains "Relevant document content:"
            (base_context +:+ newline +:+ get_context cb
             +:+ newline +:+ newline
             +:+ "Relevant document content:" +:+ newline
             +:+ join newline (map page_content docs)
             +:+ newline +:+ newline
             +:+ "User query: " +:+ prompt)
          = true).
Proof.
  intros env cb prompt w.
  assert (Hgrounded : forall vs docs,
             env_similarity_search env vs prompt 2 = Returns docs ->
             trace (get_gemini_response env cb prompt (Some vs) w).2
             = trace w
               ++ [call_similarity_search prompt 2;
                   call_generate_content
                     (grounded_prompt (get_context cb)
                        (join newline (map page_content docs)) prompt)]).
  { intros vs docs Hdocs.
    unfold get_gemini_response, similarity_search, try_except,
      generate_content, bind, log_call, lift, log_ui, ret.
    rewrite Hdocs. simpl.
    destruct (env_generate_content env _) as [resp | e]; simpl.
    - destruct (reply_text resp); simpl; rewrite <- app_assoc; reflexivity.
    - rewrite <- app_assoc. reflexivity. }
  split; [| split; [| split; [| split]]].
  - unfold get_gemini_response, try_except,
      generate_content, bind, log_call, lift, log_ui, ret. simpl.
    fold (ungrounded_prompt (get_context cb) prompt).
    destruct (env_generate_content env _) as [resp | e]; simpl.
    + destruct (reply_text resp); reflexivity.
    + reflexivity.
  - apply ungrounded_prompt_label.
  - intros vs docs Hdocs. apply Hgrounded. assumption.
  - intros vs ranking Hrank. apply (Hgrounded vs). apply (Hrank 2).
  - intros docs.
    apply (grounded_prompt_label (get_context cb)
             (join newline (map page_content docs)) prompt).
Qed.

(** ** Ingestion *)

Lemma keeps_copy_upload path reads : keeps_session (copy_upload path reads).
Proof. induction reads as [| r rest IH]; simpl; frame. Qed.

#[local] Hint Resolve keeps_copy_upload : frame.

Lemma keeps_spool_upload env file : keeps_session (spool_upload env file).
Proof. unfold spool_upload. frame. Qed.

Lemma keeps_read_temp path : keeps_session (read_temp path).
Proof. unfold read_temp. frame. Qed.

#[local] Hint Resolve keeps_spool_upload keeps_read_temp : frame.

Lemma keeps_build_index env chunks starts acc :
  keeps_session (build_index env chunks starts acc).
Proof.
  revert acc. induction starts as [| i rest IH]; intros acc; simpl.
  - frame.
  - apply keeps_bind; [| intros vs; apply IH].
    unfold from_texts, add_texts. frame.
Qed.

#[local] Hint Resolve keeps_build_index : frame.

Lemma keeps_ingest env file path : keeps_session (ingest env file path).
Proof. unfold ingest, parse_upload, index_texts, process_pdf. frame. Qed.

Lemma keeps_ingestion_handlers e : keeps_session (ingestion_handlers e).
Proof. unfold ingestion_handlers. frame. Qed.

Lemma keeps_remove_temp env p : keeps_session (remove_temp env p).
Proof. unfold remove_temp. frame. Qed.

#[local] Hint Resolve keeps_ingest keeps_ingestion_handlers keeps_remove_temp
  : frame.

Lemma keeps_process_document env file :
  keeps_session (process_document env file).
Proof.
  unfold process_document. destruct (_ >? _); [frame |].
  intros w.
  pose proof (keeps_spool_upload env file w) as Hspool.
  destruct (spool_upload env file w) as [[path | e] w1]; simpl in Hspool;
    rewrite <- Hspool.
  - apply (keeps_finally
             (try_except (ingest env file path) ingestion_handlers)
             (remove_temp env (Some path))); frame.
  - apply (keeps_finally (ingestion_handlers e) (remove_temp env None)); frame.
Qed.

(** *** [process_document] returns *)

Lemma never_raises_finally {A} (m : M A) (fin : M unit) :
  never_raises m -> never_raises fin -> never_raises (finally m fin).
Proof.
  intros Hm Hfin w. unfold finally.
  destruct (Hm w) as [a Ha]. destruct (m w) as [r w1]. simpl in Ha. subst r.
  destruct (Hfin w1) as [u Hu]. destruct (fin w1) as [r w2]. simpl in Hu.
  subst r. exists a. reflexivity.
Qed.

Lemma never_raises_try_except {A} (m : M A) (h : exn -> M A) :
  (forall e, never_raises (h e)) -> never_raises (try_except m h).
Proof.
  intros Hh w. unfold try_except.
  destruct (m w) as [[a | e] w1]; [exists a; reflexivity | apply Hh].
Qed.

Lemma ingestion_handlers_return e w :
  (ingestion_handlers e w).1 = Returns None.
Proof. destruct e; reflexivity. Qed.

Lemma never_raises_remove_temp env p : never_raises (remove_temp env p).
Proof.
  intros w. destruct p as [path |]; simpl; [| exists tt; reflexivity].
  unfold bind, get. simpl.
  destruct (nonempty path && _); [| exists tt; reflexivity].
  unfold try_except, bind, log_call, lift, set_tmpfs, log_ui. simpl.
  destruct (env_unlink env path); simpl; exists tt; reflexivity.
Qed.

Lemma never_raises_process_document env file :
  never_raises (process_document env file).
Proof.
  intros w. unfold process_document.
  destruct (_ >? _); [exists None; reflexivity |].
  destruct (spool_upload env file w) as [[path | e] w1].
  - apply never_raises_finally.
    + apply never_raises_try_except. intros e w2. eexists.
      apply ingestion_handlers_return.
    + apply never_raises_remove_temp.
  - apply never_raises_finally.
    + intros w2. eexists. apply ingestion_handlers_return.
    + apply never_raises_remove_temp.
Qed.

(** *** The copy of the upload *)

Lemma copy_upload_nil path w :
  copy_upload path [] w = (Returns tt, after (log_call (call_file_read copy_chunk_size)) w).
Proof. reflexivity. Qed.

Lemma copy_upload_raises path e rest w :
  copy_upload path (Raises e :: rest) w
  = (Raises e, after (log_call (call_file_read copy_chunk_size)) w).
Proof. reflexivity. Qed.

Lemma copy_upload_returns path chunk rest w :
  copy_upload path (Returns chunk :: rest) w
  = if nonempty chunk
    then copy_upload path rest
           (after (set_tmpfs (fun fs => <[path := default "" (fs !! path) +:+ chunk]> fs))
              (after (log_call (call_temp_write path chunk))
                 (after (log_call (call_file_read copy_chunk_size)) w)))
    else (Returns tt, after (log_call (call_file_read copy_chunk_size)) w).
Proof. simpl. unfold bind, lift, log_call, set_tmpfs, after. simpl. destruct (nonempty chunk); reflexivity. Qed.

Lemma copy_upload_spec path reads :
  forall w d0,
    tmpfs w !! path = Some d0 ->
    exists w1,
      ui w1 = ui w
      /\ match upload_bytes reads with
         | Returns data =>
             copy_upload path reads w = (Returns tt, w1)
             /\ tmpfs w1 !! path = Some (d0 +:+ data)
         | Raises e => copy_upload path reads w = (Raises e, w1)
         end.
Proof.
  induction reads as [| r rest IH]; intros w d0 Hd0.
  - rewrite copy_upload_nil. eexists. split; [| split; [reflexivity |]]; simpl; [reflexivity |].
    rewrite append_empty_r. assumption.
  - destruct r as [chunk | e].
    + rewrite copy_upload_returns. simpl upload_bytes.
      destruct (nonempty chunk) eqn:Hne.
      * match goal with
        | |- context [copy_upload path rest ?w0] =>
            destruct (IH w0 (d0 +:+ chunk)) as (w1 & Hui & Hrun)
        end.
        { simpl. rewrite lookup_insert_eq, Hd0. reflexivity. }
        exists w1. split; [rewrite Hui; reflexivity |].
        destruct (upload_bytes rest) as [data | e].
        -- destruct Hrun as [Hrun Hfs]. split; [exact Hrun |].
           rewrite Hfs, append_assoc. reflexivity.
        -- exact Hrun.
      * eexists. split; [| split; [reflexivity |]]; simpl; [reflexivity |].
        rewrite append_empty_r. assumption.
    + rewrite copy_upload_raises. eexists. split; [| reflexivity]. reflexivity.
Qed.

Lemma spool_upload_unfold env file w :
  spool_upload env file w
  = let w0 := after (log_call (call_NamedTemporaryFile (env_splitext env (file_name file)))) w in
    match env_NamedTemporaryFile env (env_splitext env (file_name file)) with
    | Raises e => (Raises e, w0)
    | Returns path =>
        match copy_upload path (file_reads file)
                (after (set_tmpfs (fun fs => <[path := ""]> fs)) w0) with
        | (Returns _, w1) => (Returns path, w1)
        | (Raises e, w1) => (Raises e, w1)
        end
    end.
Proof.
  unfold spool_upload, bind, lift, log_call, set_tmpfs, after, ret. simpl.
  destruct (env_NamedTemporaryFile env _); [| reflexivity].
  destruct (copy_upload _ _ _) as [[[] | e] w1]; reflexivity.
Qed.

Lemma spool_upload_spec env file w :
  exists w1,
    ui w1 = ui w
    /\ match env_NamedTemporaryFile env (env_splitext env (file_name file)) with
       | Raises e => spool_upload env file w = (Raises e, w1)
       | Returns path =>
           match upload_bytes (file_reads file) with
           | Returns data =>
               spool_upload env file w = (Returns path, w1)
               /\ tmpfs w1 !! path = Some data
           | Raises e => spool_upload env file w = (Raises e, w1)
           end
       end.
Proof.
  rewrite spool_upload_unfold. cbv zeta.
  destruct (env_NamedTemporaryFile env _) as [path | e].
  - match goal with
    | |- context [copy_upload path _ ?w0] =>
        destruct (copy_upload_spec path (file_reads file) w0 "")
          as (w1 & Hui & Hrun)
    end.
    { simpl. apply lookup_insert_eq. }
    exists w1. split; [rewrite Hui; reflexivity |].
    destruct (upload_bytes (file_reads file)) as [data | e].
    + destruct Hrun as [Hrun Hfs]. rewrite Hrun. 
      split; [reflexivity | exact Hfs].
    + rewrite Hrun. reflexivity.
  - eexists. split; [| reflexivity]. reflexivity.
Qed.

(** *** The batched index build *)

Lemma batch_at_eq (l : list string) i : batch_at l i = take batch_size (drop i l).
Proof. unfold batch_at, slice. f_equal. lia. Qed.

Lemma take_add_drop {A} (l : list A) (n m : nat) :
  take (n + m) l = take n l ++ take m (drop n l).
Proof.
  revert l. induction n as [| n IH]; intros l; [reflexivity |].
  destruct l as [| x l]; simpl.
  - rewrite take_nil. reflexivity.
  - rewrite IH. reflexivity.
Qed.

Lemma concat_batches_prefix (l : list string) (b k : nat) :
  concat (map (fun j => take b (drop (j * b) l)) (seq 0 k)) = take (k * b) l.
Proof.
  induction k as [| k IH]; [reflexivity |].
  rewrite seq_S, map_app, concat_app, IH. simpl.
  rewrite app_nil_r, <- take_add_drop. f_equal. lia.
Qed.

Lemma ceil_mul_ge (n b : nat) : (0 < b)%nat -> (n <= (n + b - 1) / b * b)%nat.
Proof.
  intros Hb.
  pose proof (Nat.div_mod (n + b - 1) b ltac:(lia)) as Hdm.
  pose proof (Nat.mod_upper_bound (n + b - 1) b ltac:(lia)) as Hr.
  revert Hdm Hr. generalize ((n + b - 1) / b)%nat ((n + b - 1) mod b)%nat.
  intros q r Hdm Hr. nia.
Qed.

Lemma batch_size_pos : (0 < batch_size)%nat.
Proof. unfold batch_size. lia. Qed.

Lemma concat_batches (l : list string) :
  concat (map (batch_at l) (range_step (length l) batch_size)) = l.
Proof.
  unfold range_step. rewrite map_map.
  erewrite map_ext by (intros j; apply batch_at_eq).
  rewrite concat_batches_prefix. apply take_ge.
  apply ceil_mul_ge, batch_size_pos.
Qed.

Lemma range_step_nil (n : nat) : range_step n batch_size = [] <-> n = 0%nat.
Proof.
  unfold range_step. split.
  - intros H.
    pose proof (ceil_mul_ge n batch_size batch_size_pos) as Hge.
    destruct ((n + batch_size - 1) / batch_size)%nat; [lia | discriminate H].
  - intros ->. reflexivity.
Qed.

Lemma build_index_cons env chunks i rest acc w :
  build_index env chunks (i :: rest) acc w
  = let w0 := after (log_call (match acc with
                                | None => call_from_texts (batch_at chunks i)
                                | Some _ => call_add_texts (batch_at chunks i)
                                end)) w in
    match env_embed env (batch_at chunks i) with
    | Raises e => (Raises e, w0)
    | Returns vectors =>
        build_index env chunks rest
          (Some (mkStore (texts_of acc ++ batch_at chunks i)
                   (match acc with
                    | None => vectors
                    | Some vs => store_vectors vs ++ vectors
                    end))) w0
    end.
Proof.
  simpl. unfold bind, from_texts, add_texts, bind, lift, log_call, ret, after, batch_at.
  destruct acc as [vs |]; simpl; destruct (env_embed env _); reflexivity.
Qed.

Lemma build_index_spec env chunks starts :
  forall acc w,
    exists w1,
      ui w1 = ui w
      /\ ((Forall (fun i => exists vs, env_embed env (batch_at chunks i) = Returns vs) starts
           /\ exists r,
               build_index env chunks starts acc w = (Returns r, w1)
               /\ texts_of r = texts_of acc ++ concat (map (batch_at chunks) starts)
               /\ (starts = [] -> r = acc)
               /\ (starts <> [] -> is_Some r))
          \/ (Exists (fun i => exists e, env_embed env (batch_at chunks i) = Raises e) starts
              /\ exists e, build_index env chunks starts acc w = (Raises e, w1))).
Proof.
  induction starts as [| i rest IH]; intros acc w.
  - exists w. split; [reflexivity |]. left. split; [constructor |].
    exists acc. simpl. rewrite app_nil_r. repeat split; [done..|congruence].
  - rewrite build_index_cons. cbv zeta.
    destruct (env_embed env (batch_at chunks i)) as [vectors | e] eqn:Hembed.
    + match goal with
      | |- context [build_index env chunks rest ?a ?w0] =>
          destruct (IH a w0) as (w1 & Hui & Hrun)
      end.
      exists w1. split; [rewrite Hui; reflexivity |].
      destruct Hrun as [(Hall & r & Hrun & Htexts & Hnil & Hsome) | (Hex & e & Hrun)].
      * left. split; [constructor; eauto |].
        exists r. split; [exact Hrun |]. split; [| split].
        -- rewrite Htexts. simpl. rewrite app_assoc. reflexivity.
        -- discriminate.
        -- intros _. destruct rest as [| j rest'].
           ++ rewrite Hnil by reflexivity. eauto.
           ++ apply Hsome. discriminate.
      * right. split; [apply Exists_cons_tl; exact Hex |]. eauto.
    + eexists. split; [| right; split; [apply Exists_cons_hd; eauto | eauto]].
      reflexivity.
Qed.

(** *** Parsing, splitting and the whole pipeline *)

Lemma parse_upload_spec env file path data w :
  tmpfs w !! path = Some data ->
  exists w1,
    tmpfs w1 = tmpfs w
    /\ match parser_result env (file_name file) data with
       | None =>
           parse_upload env file path w = (Returns None, w1)
           /\ ui w1 = ui w ++ [st_error unsupported_message]
           /\ trace w1 = trace w
       | Some (Returns texts) =>
           parse_upload env file path w = (Returns (Some texts), w1)
           /\ ui w1 = ui w
       | Some (Raises e) =>
           parse_upload env file path w = (Raises e, w1) /\ ui w1 = ui w
       end.
Proof.
  intros Hdata. unfold parse_upload, parser_result.
  destruct (endswith (file_name file) ".pdf");
    [| destruct (endswith (file_name file) ".docx");
       [| destruct (endswith (file_name file) ".txt")]].
  4: { eexists. split; [| split; [reflexivity | split; reflexivity]]. reflexivity. }
  all: unfold process_pdf, read_temp, bind, log_call, get, lift, ret, raise;
    simpl; rewrite Hdata; simpl.
  - destruct (env_pdf_pages env data); eexists; (split; [| split; reflexivity]); reflexivity.
  - destruct (env_unstructured env data); eexists; (split; [| split; reflexivity]); reflexivity.
  - destruct (env_readlines env data); eexists; (split; [| split; reflexivity]); reflexivity.
Qed.

Lemma index_texts_spec env texts w :
  exists w1,
    ui w1 = ui w
    /\ match env_split_text env splitter_chunk_size splitter_chunk_overlap
               (join newline texts) with
       | Raises e => index_texts env texts w = (Raises e, w1)
       | Returns chunks =>
           (Forall (fun i => embeds env (batch_at chunks i))
              (range_step (length chunks) batch_size)
            /\ exists r,
                index_texts env texts w = (Returns r, w1)
                /\ texts_of r = chunks
                /\ (chunks = [] -> r = None)
                /\ (chunks <> [] -> is_Some r))
           \/ (Exists (fun i => exists e, env_embed env (batch_at chunks i) = Raises e)
                 (range_step (length chunks) batch_size)
               /\ exists e, index_texts env texts w = (Raises e, w1))
       end.
Proof.
  unfold index_texts, bind, log_call, lift. simpl.
  destruct (env_split_text env _ _ _) as [chunks | e].
  - match goal with
    | |- context [build_index env chunks ?st ?a ?w0] =>
        destruct (build_index_spec env chunks st a w0) as (w1 & Hui & Hrun)
    end.
    exists w1. split; [rewrite Hui; reflexivity |].
    destruct Hrun as [(Hall & r & Hrun & Htexts & Hnil & Hsome) | (Hex & e & Hrun)].
    + left. split; [exact Hall |]. exists r. split; [exact Hrun |].
      split; [| split].
      * rewrite Htexts. simpl. apply concat_batches.
      * intros ->. apply Hnil. reflexivity.
      * intros Hne. apply Hsome. intros Hr. apply range_step_nil in Hr.
        destruct chunks; [congruence | discriminate].
    + right. split; [exact Hex |]. eauto.
  - eexists. split; [| reflexivity]. reflexivity.
Qed.

Lemma ingest_spec env file path data w :
  tmpfs w !! path = Some data ->
  exists w1,
    match parser_result env (file_name file) data with
    | None =>
        ingest env file path w = (Returns None, w1)
        /\ ui w1 = ui w ++ [st_error unsupported_message]
        /\ trace w1 = trace w
    | Some (Raises e) => ingest env file path w = (Raises e, w1) /\ ui w1 = ui w
    | Some (Returns texts) =>
        ui w1 = ui w
        /\ match env_split_text env splitter_chunk_size splitter_chunk_overlap
                  (join newline texts) with
           | Raises e => ingest env file path w = (Raises e, w1)
           | Returns chunks =>
               (Forall (fun i => embeds env (batch_at chunks i))
                  (range_step (length chunks) batch_size)
                /\ exists r,
                    ingest env file path w = (Returns r, w1)
                    /\ texts_of r = chunks
                    /\ (chunks = [] -> r = None)
                    /\ (chunks <> [] -> is_Some r))
               \/ (Exists (fun i => exists e, env_embed env (batch_at chunks i) = Raises e)
                     (range_step (length chunks) batch_size)
                   /\ exists e, ingest env file path w = (Raises e, w1))
           end
    end.
Proof.
  intros Hdata.
  destruct (parse_upload_spec env file path data w Hdata) as (w0 & Hfs & Hparse).
  unfold ingest, bind.
  destruct (parser_result env (file_name file) data) as [[texts | e] |].
  - destruct Hparse as [-> Hui0].
    destruct (index_texts_spec env texts w0) as (w1 & Hui & Hrun).
    exists w1. split; [congruence |]. exact Hrun.
  - destruct Hparse as [-> Hui0]. exists w0. split; [reflexivity | exact Hui0].
  - destruct Hparse as (-> & Hui0 & Htr). exists w0. repeat split; assumption.
Qed.

Lemma finally_result {A} (m : M A) (fin : M unit) w :
  never_raises fin -> (finally m fin w).1 = (m w).1.
Proof.
  intros Hfin. unfold finally. destruct (m w) as [r w1].
  destruct (Hfin w1) as [u Hu]. destruct (fin w1) as [r' w2].
  simpl in Hu. subst r'. reflexivity.
Qed.

(** The value [process_document] returns, by the outcome of each stage. *)
Lemma process_document_result env file w :
  file_size file <= MAX_FILE_SIZE ->
  let result := (process_document env file w).1 in
  match env_NamedTemporaryFile env (env_splitext env (file_name file)) with
  | Raises _ => result = Returns None
  | Returns path =>
      match upload_bytes (file_reads file) with
      | Raises _ => result = Returns None
      | Returns data =>
          match parser_result env (file_name file) data with
          | None | Some (Raises _) => result = Returns None
          | Some (Returns texts) =>
              match env_split_text env splitter_chunk_size
                      splitter_chunk_overlap (join newline texts) with
              | Raises _ => result = Returns None
              | Returns chunks =>
                  (Forall (fun i => embeds env (batch_at chunks i))
                     (range_step (length chunks) batch_size)
                   /\ exists r,
                       result = Returns r
                       /\ texts_of r = chunks
                       /\ (chunks = [] -> r = None)
                       /\ (chunks <> [] -> is_Some r))
                  \/ (Exists (fun i => exists e,
                                 env_embed env (batch_at chunks i) = Raises e)
                        (range_step (length chunks) batch_size)
                      /\ result = Returns None)
              end
          end
      end
  end.
Proof.
  intros Hsize. cbv zeta. unfold process_document.
  destruct (Z.gtb_spec (file_size file) MAX_FILE_SIZE) as [? | _]; [lia |].
  destruct (spool_upload_spec env file w) as (w1 & Hui & Hspool).
  destruct (env_NamedTemporaryFile env _) as [path | e].
  2: { rewrite Hspool, finally_result by apply never_raises_remove_temp.
       apply ingestion_handlers_return. }
  destruct (upload_bytes (file_reads file)) as [data | e].
  2: { rewrite Hspool, finally_result by apply never_raises_remove_temp.
       apply ingestion_handlers_return. }
  destruct Hspool as [-> Hfs].
  rewrite finally_result by apply never_raises_remove_temp.
  unfold try_except.
  destruct (ingest_spec env file path data w1 Hfs) as (w2 & Hingest).
  destruct (parser_result env (file_name file) data) as [[texts | e] |].
  - destruct Hingest as [_ Hingest].
    destruct (env_split_text env _ _ _) as [chunks | e].
    + destruct Hingest as [(Hall & r & -> & Hr) | (Hex & e & ->)].
      * left. split; [exact Hall |]. exists r. split; [reflexivity | exact Hr].
      * right. split; [exact Hex |]. apply ingestion_handlers_return.
    + rewrite Hingest. apply ingestion_handlers_return.
  - destruct Hingest as [-> _]. apply ingestion_handlers_return.
  - destruct Hingest as (-> & _). reflexivity.
Qed.

(** *** The caller *)

Lemma process_document_oversize env file w :
  file_size file > MAX_FILE_SIZE ->
  process_document env file w
  = (Returns None, after (log_ui (st_error oversize_message)) w).
Proof.
  intros Hsize. unfold process_document.
  destruct (Z.gtb_spec (file_size file) MAX_FILE_SIZE) as [_ | ?]; [| lia].
  reflexivity.
Qed.

Lemma handle_upload_vectorstore env file w :
  session_vectorstore (after (handle_upload env (Some file)) w)
  = if (file_size file >? MAX_FILE_SIZE)
       || bool_decide (session_last_uploaded_file w = Some (file_name file))
    then session_vectorstore w
    else match (process_document env file w).1 with
         | Returns (Some idx) => Some idx
         | _ => session_vectorstore w
         end.
Proof.
  unfold after, handle_upload.
  destruct (file_size file >? MAX_FILE_SIZE); [reflexivity |].
  unfold bind at 1. unfold get at 1. simpl.
  destruct (bool_decide _); [reflexivity |].
  unfold bind at 1.
  pose proof (keeps_process_document env file w) as Hkeep.
  destruct (process_document env file w) as [[[idx |] | e] w1]; simpl in *.
  - unfold save_vectorstore, pickle_dump, bind, get, set_cwd, log_call, lift,
      set_session_vectorstore, set_session_last_uploaded_file, log_ui.
    simpl. destruct (env_pickle_dump env idx); reflexivity.
  - unfold session in Hkeep. congruence.
  - unfold session in Hkeep. congruence.
Qed.

Lemma handle_upload_failure env file w :
  file_size file <= MAX_FILE_SIZE ->
  session_last_uploaded_file w <> Some (file_name file) ->
  (process_document env file w).1 = Returns None ->
  session (after (handle_upload env (Some file)) w) = session w
  /\ ui (after (handle_upload env (Some file)) w)
     = ui (after (process_document env file) w)
       ++ [st_warning "Document processing failed. Please check the error message above."].
Proof.
  intros Hsize Hlast Hnone.
  assert (Hrun : handle_upload env (Some file) w
                 = log_ui (st_warning "Document processing failed. Please check the error message above.")
                     (after (process_document env file) w)).
  { unfold after, handle_upload.
    destruct (Z.gtb_spec (file_size file) MAX_FILE_SIZE) as [? | _]; [lia |].
    unfold bind at 1. unfold get at 1.
    rewrite bool_decide_eq_false_2 by assumption.
    unfold bind at 1.
    destruct (process_document env file w) as [r w1]. simpl in Hnone.
    subst r. reflexivity. }
  unfold after at 1 2. rewrite Hrun. simpl.
  split; [| reflexivity].
  apply (keeps_process_document env file w).
Qed.

(** C5: ingestion is all or nothing.  [process_document] always returns,
    and what it returns is [None] or an index over every chunk of the
    document: an index is returned only when the temporary file was
    written, the parser and the splitter answered, and every batch was
    embedded, and it then holds all the chunks, in order.  In particular
    it returns [None] when the embedding back end is unavailable.
    [process_document] does not write the session, and its caller
    replaces the active vectorstore only by a returned index: after an
    upload the session holds the returned index, or else the vectorstore
    it held before. *)
Theorem process_document_all_or_nothing :
  forall env file w,
    (exists r, (process_document env file w).1 = Returns r)
    /\ (forall idx,
          (process_document env file w).1 = Returns (Some idx) ->
          exists path data texts chunks,
            env_NamedTemporaryFile env (env_splitext env (file_name file))
            = Returns path
            /\ upload_bytes (file_reads file) = Returns data
            /\ parser_result env (file_name file) data = Some (Returns texts)
            /\ env_split_text env 1000 200 (join newline texts) = Returns chunks
            /\ Forall (fun i => embeds env (batch_at chunks i))
                 (range_step (length chunks) batch_size)
            /\ store_texts idx = chunks
            /\ chunks <> [])
    /\ ((forall batch, exists e, env_embed env batch = Raises e) ->
        (process_document env file w).1 = Returns None)
    /\ session_vectorstore (after (process_document env file) w)
       = session_vectorstore w
    /\ session_vectorstore (after (handle_upload env (Some file)) w)
       = if (file_size file >? MAX_FILE_SIZE)
            || bool_decide (session_last_uploaded_file w = Some (file_name file))
         then session_vectorstore w
         else match (process_document env file w).1 with
              | Returns (Some idx) => Some idx
              | _ => session_vectorstore w
              end.
Proof.
  intros env file w.
  split; [apply never_raises_process_document |].
  split; [| split; [| split]].
  - intros idx Hidx.
    destruct (Z.le_gt_cases (file_size file) MAX_FILE_SIZE) as [Hsize | Hsize].
    2: { rewrite process_document_oversize in Hidx by lia. discriminate. }
    pose proof (process_document_result env file w Hsize) as Hres.
    cbv zeta in Hres. rewrite Hidx in Hres.
    destruct (env_NamedTemporaryFile env _) as [path | e] eqn:Htemp;
      [| discriminate].
    destruct (upload_bytes (file_reads file)) as [data | e] eqn:Hbytes;
      [| discriminate].
    destruct (parser_result env (file_name file) data) as [[texts | e] |]
      eqn:Hparse; [| discriminate | discriminate].
    destruct (env_split_text env _ _ _) as [chunks | e] eqn:Hsplit;
      [| discriminate].
    destruct Hres as [(Hall & r & Hr & Htexts & Hnil & _) | (_ & ?)];
      [| discriminate].
    injection Hr as <-.
    exists path, data, texts, chunks.
    repeat split; try assumption.
    intros Hempty. specialize (Hnil Hempty). discriminate.
  - intros Hdown.
    destruct (Z.le_gt_cases (file_size file) MAX_FILE_SIZE) as [Hsize | Hsize].
    2: { rewrite process_document_oversize by lia. reflexivity. }
    pose proof (process_document_result env file w Hsize) as Hres.
    cbv zeta in Hres.
    destruct (env_NamedTemporaryFile env _) as [path | e]; [| assumption].
    destruct (upload_bytes (file_reads file)) as [data | e]; [| assumption].
    destruct (parser_result env (file_name file) data) as [[texts | e] |];
      [| assumption | assumption].
    destruct (env_split_text env _ _ _) as [chunks | e]; [| assumption].
    destruct Hres as [(Hall & r & Hr & _ & Hnil & _) | (_ & ?)];
      [| assumption].
    rewrite Hr. f_equal. apply Hnil.
    destruct (range_step (length chunks) batch_size) as [| i rest] eqn:Hrange.
    + apply range_step_nil in Hrange. destruct chunks; [reflexivity | discriminate].
    + apply Forall_cons in Hall as [[vs Hvs] _].
      destruct (Hdown (batch_at chunks i)) as [e He]. congruence.
  - pose proof (keeps_process_document env file w) as Hkeep.
    unfold session in Hkeep. unfold after. congruence.
  - apply handle_upload_vectorstore.
Qed.

(** C10: a supported upload whose text splits into zero chunks.  The
    loop over the batches does not run, [vectorstore] is still [None]
    at the [return], and the caller takes it for a failure: it warns that
    the processing failed and leaves the session as it was, the active
    vectorstore included. *)
Theorem process_document_zero_chunks :
  forall env file w path data texts,
    file_size file <= MAX_FILE_SIZE ->
    env_NamedTemporaryFile env (env_splitext env (file_name file)) = Returns path ->
    upload_bytes (file_reads file) = Returns data ->
    parser_result env (file_name file) data = Some (Returns texts) ->
    env_split_text env 1000 200 (join newline texts) = Returns [] ->
    (process_document env file w).1 = Returns None
    /\ (session_last_uploaded_file w <> Some (file_name file) ->
        session_vectorstore (after (handle_upload env (Some file)) w)
        = session_vectorstore w
        /\ session_last_uploaded_file (after (handle_upload env (Some file)) w)
           = session_last_uploaded_file w
        /\ ui (after (handle_upload env (Some file)) w)
           = ui (after (process_document env file) w)
             ++ [st_warning "Document processing failed. Please check the error message above."]).
Proof.
  intros env file w path data texts Hsize Htemp Hbytes Hparse Hsplit.
  assert (Hnone : (process_document env file w).1 = Returns None).
  { pose proof (process_document_result env file w Hsize) as Hres.
    cbv zeta in Hres. rewrite Htemp, Hbytes, Hparse in Hres.
    change splitter_chunk_size with 1000 in Hres.
    change splitter_chunk_overlap with 200 in Hres.
    rewrite Hsplit in Hres.
    destruct Hres as [(_ & r & Hr & _ & Hnil & _) | (_ & ?)]; [| assumption].
    rewrite Hr, Hnil; reflexivity. }
  split; [exact Hnone |].
  intros Hlast.
  destruct (handle_upload_failure env file w Hsize Hlast Hnone) as [Hsess Hui].
  unfold session in Hsess. injection Hsess as Hv Hl _ _.
  repeat split; assumption.
Qed.

(** *** The calls made before a rejection *)

Lemma emits_silent {A} (P : call -> Prop) (m : M A) :
  (forall w, trace (after m w) = trace w) -> emits P m.
Proof.
  intros H w. exists []. rewrite H, app_nil_r. split; [reflexivity | constructor].
Qed.

Lemma emits_ret {A} P (a : A) : emits P (ret a).
Proof. apply emits_silent. reflexivity. Qed.

Lemma emits_raise {A} P (e : exn) : emits P (@raise A e).
Proof. apply emits_silent. reflexivity. Qed.

Lemma emits_lift {A} P (r : outcome A) : emits P (lift r).
Proof. apply emits_silent. reflexivity. Qed.

Lemma emits_get {A} P (proj : World -> A) : emits P (get proj).
Proof. apply emits_silent. reflexivity. Qed.

Lemma emits_log_ui P (e : ui_event) : emits P (log_ui e).
Proof. apply emits_silent. reflexivity. Qed.

Lemma emits_set_tmpfs P f : emits P (set_tmpfs f).
Proof. apply emits_silent. reflexivity. Qed.

Lemma emits_log_call (P : call -> Prop) (c : call) : P c -> emits P (log_call c).
Proof. intros Hc w. exists [c]. split; [reflexivity | repeat constructor; assumption]. Qed.

Lemma emits_bind {A B} P (m : M A) (f : A -> M B) :
  emits P m -> (forall a, emits P (f a)) -> emits P (bind m f).
Proof.
  intros Hm Hf w. unfold after, bind.
  destruct (Hm w) as (cs & Hcs & HP). unfold after in Hcs.
  destruct (m w) as [[a | e] w1]; simpl in *.
  - destruct (Hf a w1) as (cs' & Hcs' & HP'). unfold after in Hcs'.
    exists (cs ++ cs'). rewrite Hcs', Hcs, app_assoc.
    split; [reflexivity | apply Forall_app; split; assumption].
  - exists cs. split; assumption.
Qed.

Lemma emits_try_except {A} P (m : M A) (h : exn -> M A) :
  emits P m -> (forall e, emits P (h e)) -> emits P (try_except m h).
Proof.
  intros Hm Hh w. unfold after, try_except.
  destruct (Hm w) as (cs & Hcs & HP). unfold after in Hcs.
  destruct (m w) as [[a | e] w1]; simpl in *.
  - exists cs. split; assumption.
  - destruct (Hh e w1) as (cs' & Hcs' & HP'). unfold after in Hcs'.
    exists (cs ++ cs'). rewrite Hcs', Hcs, app_assoc.
    split; [reflexivity | apply Forall_app; split; assumption].
Qed.

Lemma emits_finally {A} P (m : M A) (fin : M unit) :
  emits P m -> emits P fin -> emits P (finally m fin).
Proof.
  intros Hm Hfin w. unfold after, finally.
  destruct (Hm w) as (cs & Hcs & HP). unfold after in Hcs.
  destruct (m w) as [r w1]; simpl in *.
  destruct (Hfin w1) as (cs' & Hcs' & HP'). unfold after in Hcs'.
  exists (cs ++ cs').
  destruct (fin w1) as [[u | e] w2]; simpl in *; rewrite Hcs', Hcs, app_assoc;
    (split; [reflexivity | apply Forall_app; split; assumption]).
Qed.

Create HintDb calls.
#[local] Hint Resolve emits_ret emits_raise emits_lift emits_get emits_log_ui
  emits_set_tmpfs : calls.
#[local] Hint Extern 1 (emits _ (log_call _)) =>
  apply emits_log_call; reflexivity : calls.
#[local] Hint Extern 2 (emits _ (bind _ _)) =>
  apply emits_bind; [| intros ?] : calls.
#[local] Hint Extern 2 (emits _ (try_except _ _)) =>
  apply emits_try_except; [| intros ?] : calls.
#[local] Hint Extern 2 (emits _ (finally _ _)) => apply emits_finally : calls.
#[local] Hint Extern 3 (emits _ (match ?x with _ => _ end)) => destruct x : calls.
#[local] Hint Extern 3 (emits _ (if ?x then _ else _)) => destruct x : calls.

Lemma emits_copy_upload path reads : emits spooling (copy_upload path reads).
Proof. induction reads as [| r rest IH]; simpl; auto 30 with calls. Qed.

#[local] Hint Resolve emits_copy_upload : calls.

Lemma emits_spool_upload env file : emits spooling (spool_upload env file).
Proof. unfold spool_upload. auto 30 with calls. Qed.

Lemma emits_remove_temp env p : emits spooling (remove_temp env p).
Proof. unfold remove_temp. auto 30 with calls. Qed.

Lemma emits_ingestion_handlers e : emits spooling (ingestion_handlers e).
Proof. unfold ingestion_handlers. auto 30 with calls. Qed.

(** An upload of an unsupported format is rejected by the last branch of
    the dispatch, without a call. *)
Lemma ingest_unsupported env file path :
  endswith (file_name file) ".pdf" = false ->
  endswith (file_name file) ".docx" = false ->
  endswith (file_name file) ".txt" = false ->
  ingest env file path
  = (run log_ui (st_error unsupported_message) then ret None).
Proof.
  intros Hpdf Hdocx Htxt. unfold ingest, parse_upload.
  rewrite Hpdf, Hdocx, Htxt. reflexivity.
Qed.

Lemma spool_upload_first_call env file w :
  exists cs,
    trace (after (spool_upload env file) w)
    = trace w ++ call_NamedTemporaryFile (env_splitext env (file_name file)) :: cs
    /\ Forall spooling cs.
Proof.
  unfold after. rewrite spool_upload_unfold. cbv zeta.
  destruct (env_NamedTemporaryFile env _) as [path | e].
  - match goal with
    | |- context [copy_upload path ?r ?w0] =>
        destruct (emits_copy_upload path r w0) as (cs & Hcs & HP)
    end.
    unfold after in Hcs. exists cs.
    destruct (copy_upload path _ _) as [[[] | e] w1]; simpl in *;
      rewrite Hcs, <- app_assoc; (split; [reflexivity | assumption]).
  - exists []. split; [reflexivity | constructor].
Qed.

Lemma parser_result_unsupported env name data :
  endswith name ".pdf" = false ->
  endswith name ".docx" = false ->
  endswith name ".txt" = false ->
  parser_result env name data = None.
Proof. intros H1 H2 H3. unfold parser_result. rewrite H1, H2, H3. reflexivity. Qed.



Lemma oversized_upload_example :
  process_document sample_env big_pdf new_world
  = (Returns None, after (log_ui (st_error oversize_message)) new_world).
Proof. reflexivity. Qed.

(** ** Housekeeping *)

Lemma timedelta_days_gt (delta m : Z) :
  timedelta_days delta > m <-> (m + 1) * microseconds_per_day <= delta.
Proof.
  unfold timedelta_days.
  assert (HD : 0 < microseconds_per_day) by (unfold microseconds_per_day; lia).
  split.
  - intros H.
    pose proof (Z.mul_div_le delta microseconds_per_day HD). nia.
  - intros H.
    enough (m + 1 <= delta / microseconds_per_day) by lia.
    apply Z.div_le_lower_bound; lia.
Qed.

Lemma swept_iff max_age_days current_time name f :
  swept max_age_days current_time name f = true
  <-> startswith name "vectorstore_" = true
      /\ endswith name ".pkl" = true
      /\ (max_age_days + 1) * microseconds_per_day <= current_time - ctime f.
Proof.
  unfold swept. rewrite !andb_true_iff, <- timedelta_days_gt.
  rewrite Z.gtb_gt. tauto.
Qed.

(** One turn of the loop. *)
Lemma sweep_step env m t filename rest w :
  sweep env m t (filename :: rest) w
  = match cwd w !! filename with
    | Some f =>
        if swept m t filename f
        then match env_remove env filename with
             | Returns _ =>
                 sweep env m t rest
                   (after (set_cwd (fun d => delete filename d)) w)
             | Raises e => (Raises e, w)
             end
        else sweep env m t rest w
    | None =>
        if startswith filename "vectorstore_" && endswith filename ".pkl"
        then (Raises (OtherError ("FileNotFoundError: " +:+ filename)), w)
        else sweep env m t rest w
    end.
Proof.
  simpl. unfold swept, bind, get, os_remove, lift, set_cwd, raise, after.
  destruct (startswith filename "vectorstore_" && endswith filename ".pkl");
    simpl.
  - destruct (cwd w !! filename) as [f |]; [| reflexivity].
    destruct (timedelta_days (t - ctime f) >? m); [| reflexivity].
    destruct (env_remove env filename) as [[] | e]; reflexivity.
  - destruct (cwd w !! filename) as [f |]; reflexivity.
Qed.

Lemma cleanup_old_vectorstores_run env m w :
  cleanup_old_vectorstores env m w
  = sweep env m (now w) (env_listdir env (cwd w)) w.
Proof. reflexivity. Qed.

(** A sweep adds no entry and alters none. *)
Lemma sweep_subseteq env m t names :
  forall w, cwd (after (sweep env m t names) w) ⊆ cwd w.
Proof.
  induction names as [| filename rest IH]; intros w; [reflexivity |].
  unfold after in *. rewrite sweep_step.
  destruct (cwd w !! filename) as [f |].
  - destruct (swept m t filename f); [| apply IH].
    destruct (env_remove env filename) as [[] | e]; [| reflexivity].
    etrans; [apply IH |]. simpl. apply delete_subseteq.
  - destruct (_ && _); [reflexivity | apply IH].
Qed.

(** An entry that fails the test of lines 303-306 is not touched. *)
Lemma sweep_kept env m t names name :
  forall w,
    (forall f, cwd w !! name = Some f -> swept m t name f = false) ->
    cwd (after (sweep env m t names) w) !! name = cwd w !! name.
Proof.
  induction names as [| filename rest IH]; intros w Hname; [reflexivity |].
  unfold after in *. rewrite sweep_step.
  destruct (cwd w !! filename) as [f |] eqn:Hf.
  - destruct (swept m t filename f) eqn:Hs; [| apply IH; exact Hname].
    destruct (env_remove env filename) as [[] | e]; [| reflexivity].
    assert (Hne : filename <> name).
    { intros ->. rewrite (Hname f Hf) in Hs. discriminate. }
    rewrite IH.
    + simpl. apply lookup_delete_ne. exact Hne.
    + intros g. simpl. rewrite lookup_delete_ne by exact Hne. apply Hname.
  - destruct (_ && _); [reflexivity | apply IH; exact Hname].
Qed.

(** The sweep of names that are in the directory, each visited once,
    when the removals succeed. *)
Lemma sweep_exact env m t names :
  forall w,
    NoDup names ->
    (forall n, n ∈ names -> is_Some (cwd w !! n)) ->
    (forall n f, n ∈ names -> cwd w !! n = Some f ->
                 swept m t n f = true -> env_remove env n = Returns tt) ->
    (sweep env m t names w).1 = Returns tt
    /\ forall n,
        cwd (after (sweep env m t names) w) !! n
        = match cwd w !! n with
          | Some f =>
              if bool_decide (n ∈ names) && swept m t n f then None else Some f
          | None => None
          end.
Proof.
  induction names as [| filename rest IH]; intros w Hnodup Hin Hrm.
  - split; [reflexivity |]. intros n. unfold after. simpl.
    destruct (cwd w !! n); reflexivity.
  - apply NoDup_cons in Hnodup as [Hfresh Hnodup].
    unfold after in *. rewrite sweep_step.
    destruct (Hin filename) as [f Hf]; [left |]. rewrite Hf.
    destruct (swept m t filename f) eqn:Hs.
    + rewrite (Hrm filename f) by (try left; assumption).
      destruct (IH (after (set_cwd (fun d => delete filename d)) w) Hnodup)
        as [Hret Hlook].
      * intros n Hn. unfold after. simpl.
        rewrite lookup_delete_ne by (intros ->; contradiction).
        apply Hin. right. exact Hn.
      * intros n g Hn. unfold after. simpl.
        rewrite lookup_delete_ne by (intros ->; contradiction).
        apply Hrm. right. exact Hn.
      * split; [exact Hret |]. intros n. rewrite Hlook. unfold after. simpl.
        destruct (decide (n = filename)) as [-> | Hne].
        -- rewrite lookup_delete_eq, Hf, Hs.
           rewrite bool_decide_eq_true_2 by left. reflexivity.
        -- rewrite lookup_delete_ne by congruence.
           destruct (cwd w !! n) as [g |]; [| reflexivity].
           rewrite (bool_decide_ext (n ∈ filename :: rest) (n ∈ rest));
             [reflexivity |].
           rewrite elem_of_cons. tauto.
    + destruct (IH w Hnodup) as [Hret Hlook].
      * intros n Hn. apply Hin. right. exact Hn.
      * intros n g Hn. apply Hrm. right. exact Hn.
      * split; [exact Hret |]. intros n. rewrite Hlook.
        destruct (decide (n = filename)) as [-> | Hne].
        -- rewrite Hf, Hs, !andb_false_r. reflexivity.
        -- destruct (cwd w !! n) as [g |]; [| reflexivity].
           rewrite (bool_decide_ext (n ∈ filename :: rest) (n ∈ rest));
             [reflexivity |].
           rewrite elem_of_cons. tauto.
Qed.

(** A sweep that returns has made every removal it had to make. *)
Lemma sweep_returns_removals env m t names :
  forall w,
    NoDup names ->
    (sweep env m t names w).1 = Returns tt ->
    forall n f, n ∈ names -> cwd w !! n = Some f ->
                swept m t n f = true -> env_remove env n = Returns tt.
Proof.
  induction names as [| filename rest IH]; intros w Hnodup Hret n g Hn Hg Hs.
  - apply elem_of_nil in Hn. contradiction.
  - apply NoDup_cons in Hnodup as [Hfresh Hnodup].
    rewrite sweep_step in Hret.
    apply elem_of_cons in Hn as [-> | Hn].
    + rewrite Hg, Hs in Hret.
      destruct (env_remove env filename) as [[] | e];
        [reflexivity | discriminate].
    + destruct (cwd w !! filename) as [f |] eqn:Hf.
      * destruct (swept m t filename f).
        -- destruct (env_remove env filename) as [[] | e]; [| discriminate].
           apply (IH _ Hnodup Hret n g Hn); [| exact Hs].
           unfold after. simpl.
           rewrite lookup_delete_ne by (intros ->; contradiction). exact Hg.
        -- apply (IH _ Hnodup Hret n g Hn Hg Hs).
      * destruct (_ && _); [discriminate |].
        apply (IH _ Hnodup Hret n g Hn Hg Hs).
Qed.

Lemma sweep_app env m t before rest w :
  sweep env m t (before ++ rest) w
  = match sweep env m t before w with
    | (Returns _, w1) => sweep env m t rest w1
    | (Raises e, w1) => (Raises e, w1)
    end.
Proof.
  revert w. induction before as [| filename before IH]; intros w;
    [reflexivity |].
  rewrite <- app_comm_cons, !sweep_step.
  destruct (cwd w !! filename) as [f |].
  - destruct (swept m t filename f); [| apply IH].
    destruct (env_remove env filename) as [[] | e]; [apply IH | reflexivity].
  - destruct (_ && _); [reflexivity | apply IH].
Qed.

(** What [os.listdir] gives for a directory it lists. *)
Lemma lists_directory_NoDup env d :
  lists_directory env d -> NoDup (env_listdir env d).
Proof.
  intros Hlist. unfold lists_directory in Hlist. rewrite Hlist.
  apply NoDup_fst_map_to_list.
Qed.

Lemma lists_directory_elem_of env d name :
  lists_directory env d -> name ∈ env_listdir env d <-> is_Some (d !! name).
Proof.
  intros Hlist. unfold lists_directory in Hlist. rewrite Hlist.
  rewrite list_elem_of_fmap. split.
  - intros ([n f] & -> & Hin). apply elem_of_map_to_list in Hin. eauto.
  - intros [f Hf]. exists (name, f). split; [reflexivity |].
    apply elem_of_map_to_list. exact Hf.
Qed.

(** The sweep of a listed directory when every removal succeeds: it
    returns, and the entries left are those that fail the test. *)
Lemma cleanup_lookup env max_age_days w name :
  lists_directory env (cwd w) ->
  removals_succeed env max_age_days (now w) (cwd w) ->
  (cleanup_old_vectorstores env max_age_days w).1 = Returns tt
  /\ cwd (after (cleanup_old_vectorstores env max_age_days) w) !! name
     = match cwd w !! name with
       | Some f => if swept max_age_days (now w) name f then None else Some f
       | None => None
       end.
Proof.
  intros Hlist Hrm. unfold after. rewrite cleanup_old_vectorstores_run.
  destruct (sweep_exact env max_age_days (now w) (env_listdir env (cwd w)) w)
    as [Hret Hlook].
  - apply lists_directory_NoDup. exact Hlist.
  - intros n Hn. apply (lists_directory_elem_of env (cwd w) n Hlist). exact Hn.
  - intros n f _. apply Hrm.
  - split; [exact Hret |]. unfold after in Hlook. rewrite Hlook.
    destruct (cwd w !! name) as [f |] eqn:Hf; [| reflexivity].
    rewrite bool_decide_eq_true_2; [reflexivity |].
    apply (lists_directory_elem_of env (cwd w) name Hlist). eauto.
Qed.

(** A sweep of a listed directory that returns has met no failing
    removal. *)
Lemma cleanup_returns_removals env max_age_days w :
  lists_directory env (cwd w) ->
  (cleanup_old_vectorstores env max_age_days w).1 = Returns tt ->
  removals_succeed env max_age_days (now w) (cwd w).
Proof.
  intros Hlist Hret name f Hf Hs. rewrite cleanup_old_vectorstores_run in Hret.
  apply (sweep_returns_removals env max_age_days (now w)
           (env_listdir env (cwd w)) w
           (lists_directory_NoDup env (cwd w) Hlist) Hret name f);
    [| exact Hf | exact Hs].
  apply (lists_directory_elem_of env (cwd w) name Hlist). eauto.
Qed.



(** A file that matches the pattern and is two and a half days old is
    kept by a sweep with the threshold of two days. *)
Lemma sweep_keeps_file_older_than_threshold :
  swept default_max_age_days (5 * (microseconds_per_day / 2))
    "vectorstore_a.pkl" (mkDiskFile 0 (Bytes "")) = false
  /\ default_max_age_days * microseconds_per_day
     < 5 * (microseconds_per_day / 2) - 0.
Proof. split; [reflexivity | vm_compute; reflexivity]. Qed.

(** A sweep of the sample directory at day 7 with the default threshold:
    the two old files that match the pattern are removed, the saved
    index, seven days old, and the file of another name stay. *)
Lemma sweep_example :
  lists_directory sample_env (cwd swept_world)
  /\ removals_succeed sample_env default_max_age_days (now swept_world)
       (cwd swept_world)
  /\ (cleanup_old_vectorstores sample_env default_max_age_days swept_world).1
     = Returns tt
  /\ cwd (after (cleanup_old_vectorstores sample_env default_max_age_days)
            swept_world)
     = {[ "notes.txt" := mkDiskFile 0 (Bytes "sow in May");
          "vectorstore.pkl" := mkDiskFile 0 (Pickled sample_store) ]}.
Proof.
  split; [unfold lists_directory; reflexivity |].
  split; [intros name f _ _; reflexivity |].
  split; vm_compute; reflexivity.
Qed.

(** The same sweep when [os.remove] raises on "vectorstore_b.pkl": the
    sweep raises and that file stays. *)
Lemma sweep_failure_example :
  (cleanup_old_vectorstores failing_remove_env default_max_age_days
     swept_world).1
  = Raises (OtherError "[Errno 21] Is a directory: 'vectorstore_b.pkl'")
  /\ cwd (after (cleanup_old_vectorstores failing_remove_env
                   default_max_age_days) swept_world) !! "vectorstore_b.pkl"
     = Some (mkDiskFile (4 * microseconds_per_day) (Bytes "")).
Proof. split; vm_compute; reflexivity. Qed.

(** ** Runs on the sample collaborators *)

Lemma get_gemini_response_retrieval_failure_raises_witness :
  env_similarity_search failing_search_env sample_store "How do I rotate crops?" 2
  = Raises (OtherError "embedding backend unavailable")
  /\ ((get_gemini_response failing_search_env (new_buffer default_max_turns)
         "How do I rotate crops?" (Some sample_store) new_world).1
      = Raises (OtherError "embedding backend unavailable")
      /\ ui (get_gemini_response failing_search_env
               (new_buffer default_max_turns) "How do I rotate crops?"
               (Some sample_store) new_world).2
         = ui new_world
      /\ (session_vectorstore new_world = Some sample_store ->
          (chat_round failing_search_env "How do I rotate crops?" new_world).1
          = Raises (OtherError "embedding backend unavailable"))).
Proof.
  split; [reflexivity |].
  apply (get_gemini_response_retrieval_failure_raises failing_search_env
           (new_buffer default_max_turns) "How do I rotate crops?"
           sample_store new_world
           (OtherError "embedding backend unavailable")).
  reflexivity.
Defined.

Lemma process_document_zero_chunks_witness :
  (process_document sample_env empty_txt new_world).1 = Returns None
  /\ (session_last_uploaded_file new_world <> Some (file_name empty_txt) ->
      session_vectorstore (after (handle_upload sample_env (Some empty_txt))
                             new_world)
      = session_vectorstore new_world
      /\ session_last_uploaded_file
           (after (handle_upload sample_env (Some empty_txt)) new_world)
         = session_last_uploaded_file new_world
      /\ ui (after (handle_upload sample_env (Some empty_txt)) new_world)
         = ui (after (process_document sample_env empty_txt) new_world)
           ++ [st_warning "Document processing failed. Please check the error message above."]).
Proof.
  apply (process_document_zero_chunks sample_env empty_txt new_world
           "/tmp/tmpk3v9.txt" "" []).
  - vm_compute. discriminate.
  - reflexivity.
  - reflexivity.
  - reflexivity.
  - reflexivity.
Defined.

(** A text file of one chunk is indexed, saved and made the active
    vectorstore. *)
Lemma handle_upload_example :
  let upload := mkUpload "guide.txt" 21 [Returns "Maize needs nitrogen."] in
  let w := after (handle_upload sample_env (Some upload)) new_world in
  session_vectorstore w = Some (mkStore ["Maize needs nitrogen."] [[1; 0]])
  /\ session_last_uploaded_file w = Some "guide.txt"
  /\ cwd w !! default_filename
     = Some (mkDiskFile 0 (Pickled (mkStore ["Maize needs nitrogen."] [[1; 0]])))
  /\ tmpfs w = empty.
Proof. vm_compute. repeat split. Qed.

(** A grounded round on the sample index. *)
Lemma chat_round_example :
  let w := mkWorld (Some sample_store) None [] (new_buffer default_max_turns)
             [] [] empty empty 0 in
  let w' := after (chat_round sample_env "What fixes nitrogen?") w in
  buffer (session_conversation_buffer w')
  = [mkTurn "user" "What fixes nitrogen?";
     mkTurn "assistant" "Rotate your crops."]
  /\ trace w'
     = [call_similarity_search "What fixes nitrogen?" 2;
        call_generate_content
          (grounded_prompt "user: What fixes nitrogen?"
             (join newline ["Maize needs nitrogen."; "Beans fix nitrogen."])
             "What fixes nitrogen?")].
Proof. vm_compute. repeat split. Qed.

(** ** Chunker *)

Local Open Scope nat_scope.

Lemma chunk_of_length (t : text) a b :
  (a <= b <= length t)%nat -> length (chunk_of t (a, b)) = (b - a)%nat.
Proof.
  intros H. unfold chunk_of. simpl. rewrite length_take, length_drop. lia.
Qed.

Lemma chunk_of_lookup (t : text) a b i :
  (a <= i < b)%nat -> chunk_of t (a, b) !! (i - a)%nat = t !! i.
Proof.
  intros H. unfold chunk_of. cbn [fst snd].
  rewrite lookup_take_lt by lia. rewrite lookup_drop. f_equal. lia.
Qed.

Section Chunker.
Variable cut_point : text -> nat.
Variables size overlap : nat.
Hypothesis size_pos : (1 <= size)%nat.

Lemma spans_from_bounds fuel :
  forall p rest a b,
    (a, b) ∈ spans_from cut_point size overlap fuel p rest ->
    (p <= a)%nat /\ (a < b)%nat /\ (b <= p + length rest)%nat
    /\ (b - a <= size)%nat.
Proof.
  induction fuel as [| fuel IH]; intros p rest a b Hin; simpl in Hin.
  - apply elem_of_nil in Hin. contradiction.
  - destruct (Nat.eqb_spec (length rest) 0) as [Hz | Hnz].
    { apply elem_of_nil in Hin. contradiction. }
    destruct (Nat.leb_spec (length rest) size) as [Hfit | Hlong].
    { apply list_elem_of_singleton in Hin. injection Hin as -> ->. lia. }
    apply elem_of_cons in Hin as [Hhd | Htl].
    + injection Hhd as -> ->. lia.
    + apply IH in Htl. rewrite length_drop in Htl.
      destruct (Nat.ltb_spec overlap
                  (Nat.max 1 (Nat.min size (cut_point (take size rest)))));
        lia.
Qed.

Lemma spans_from_covers fuel :
  forall p rest i,
    (length rest <= fuel)%nat ->
    (p <= i < p + length rest)%nat ->
    exists a b,
      (a, b) ∈ spans_from cut_point size overlap fuel p rest
      /\ (a <= i < b)%nat.
Proof.
  induction fuel as [| fuel IH]; intros p rest i Hfuel Hi; [lia |].
  simpl.
  destruct (Nat.eqb_spec (length rest) 0) as [Hz | Hnz]; [lia |].
  destruct (Nat.leb_spec (length rest) size) as [Hfit | Hlong].
  { exists p, (p + length rest)%nat. split; [apply list_elem_of_singleton; reflexivity | lia]. }
  set (cut := Nat.max 1 (Nat.min size (cut_point (take size rest)))).
  set (step := if (overlap <? cut)%nat then (cut - overlap)%nat else cut).
  assert (Hcut : (1 <= cut <= size)%nat) by (unfold cut; lia).
  assert (Hstep : (1 <= step <= cut)%nat).
  { unfold step. destruct (Nat.ltb_spec overlap cut); lia. }
  destruct (Nat.lt_ge_cases i (p + cut)) as [Hfirst | Hlater].
  - exists p, (p + cut)%nat. split; [apply elem_of_cons; left; reflexivity | lia].
  - destruct (IH (p + step)%nat (drop step rest) i) as (a & b & Hin & Hab).
    + rewrite length_drop. lia.
    + rewrite length_drop. lia.
    + exists a, b. split; [apply elem_of_cons; right; exact Hin | exact Hab].
Qed.

(** Consecutive chunks leave no gap, and overlap by [overlap] characters
    whenever the earlier chunk is longer than that. *)
Lemma spans_from_consecutive fuel :
  forall p rest a b a' b' tail,
    spans_from cut_point size overlap fuel p rest = (a, b) :: (a', b') :: tail ->
    (a < a' <= b)%nat
    /\ ((overlap < b - a)%nat -> a' = (b - overlap)%nat).
Proof.
  destruct fuel as [| fuel]; intros p rest a b a' b' tail Hspans;
    simpl in Hspans; [discriminate |].
  destruct (Nat.eqb_spec (length rest) 0); [discriminate |].
  destruct (Nat.leb_spec (length rest) size); [discriminate |].
  injection Hspans as <- <- Htail.
  set (cut := Nat.max 1 (Nat.min size (cut_point (take size rest)))) in *.
  assert (Hcut : (1 <= cut <= size)%nat) by (unfold cut; lia).
  assert (Hin : (a', b') ∈ spans_from cut_point size overlap fuel
                   (p + (if (overlap <? cut)%nat then (cut - overlap)%nat else cut))
                   (drop (if (overlap <? cut)%nat then (cut - overlap)%nat else cut) rest))
    by (rewrite Htail; apply elem_of_cons; left; reflexivity).
  assert (Hfirst : a' = (p + (if (overlap <? cut)%nat then (cut - overlap)%nat else cut))%nat).
  { destruct fuel as [| fuel']; simpl in Htail; [discriminate |].
    destruct (length (drop _ rest) =? 0)%nat; [discriminate |].
    destruct (length (drop _ rest) <=? size)%nat; injection Htail as -> _; reflexivity. }
  destruct (Nat.ltb_spec overlap cut); lia.
Qed.

Lemma chunk_spans_in_text (t : text) a b :
  (a, b) ∈ chunk_spans cut_point size overlap t ->
  (a < b <= length t)%nat /\ (b - a <= size)%nat.
Proof. intros Hin. apply spans_from_bounds in Hin. lia. Qed.

Lemma split_chars_covers (t : text) i c :
  t !! i = Some c ->
  exists chunk k,
    chunk ∈ split_chars cut_point size overlap t /\ chunk !! k = Some c.
Proof.
  intros Hc. pose proof (lookup_lt_Some _ _ _ Hc) as Hi.
  destruct (spans_from_covers (length t) 0 t i) as (a & b & Hin & Hab);
    [lia | lia |].
  exists (chunk_of t (a, b)), (i - a)%nat. split.
  - unfold split_chars. apply list_elem_of_fmap. exists (a, b). split; [reflexivity | exact Hin].
  - rewrite chunk_of_lookup by exact Hab. exact Hc.
Qed.

Lemma split_chars_bounded (t : text) :
  Forall (fun chunk => (1 <= length chunk <= size)%nat)
    (split_chars cut_point size overlap t).
Proof.
  unfold split_chars. apply Forall_fmap, Forall_forall.
  intros [a b] Hin. apply chunk_spans_in_text in Hin. simpl.
  rewrite chunk_of_length by lia. lia.
Qed.

End Chunker.

Lemma string_of_list_ascii_length (l : text) :
  String.length (string_of_list_ascii l) = length l.
Proof. induction l as [| c l IH]; simpl; [reflexivity | rewrite IH; reflexivity]. Qed.

Lemma split_text_spec_example :
  split_text_spec 10%Z 3%Z "abcdefghijklmnopqrstuvwxyz"
  = ["abcdefghij"; "hijklmnopq"; "opqrstuvwx"; "vwxyz"]
  /\ split_text_spec 12%Z 3%Z "Sow maize. Then beans"
     = ["Sow maize. "; "e. "; "Then beans"].
Proof. vm_compute. split; reflexivity. Qed.

(** C7, for the chunker modelled from section 4.1: with chunk size 1000
    and overlap 200, every position of the text lies in the span of a
    chunk, and the chunk has the character of that position; no chunk is
    longer than 1000 characters; an empty text gives no chunk; and the
    chunks are a function of the text (and of the two parameters). *)
Theorem chunker_covers_text_within_size :
  forall t : text,
    (forall i c,
        t !! i = Some c ->
        exists a b,
          (a, b) ∈ chunk_spans natural_cut 1000 200 t
          /\ (a <= i < b)%nat
          /\ chunk_of t (a, b) ∈ split_chars natural_cut 1000 200 t
          /\ chunk_of t (a, b) !! (i - a)%nat = Some c)
    /\ Forall (fun chunk => (length chunk <= 1000)%nat)
         (split_chars natural_cut 1000 200 t)
    /\ Forall (fun chunk => (String.length chunk <= 1000)%nat)
         (split_text_spec 1000%Z 200%Z (string_of_list_ascii t))
    /\ split_chars natural_cut 1000 200 [] = []
    /\ (forall t', t' = t ->
          split_chars natural_cut 1000 200 t'
          = split_chars natural_cut 1000 200 t).
Proof.
  intros t.
  assert (Hsize : (1 <= 1000)%nat) by lia.
  assert (Hbound : forall u : text,
             Forall (fun chunk => (length chunk <= 1000)%nat)
               (split_chars natural_cut 1000 200 u)).
  { intros u.
    eapply Forall_impl;
      [exact (split_chars_bounded natural_cut 1000 200 Hsize u) |].
    simpl. intros chunk H. lia. }
  split; [| split; [| split; [| split]]].
  - intros i c Hc. pose proof (lookup_lt_Some _ _ _ Hc) as Hi.
    destruct (spans_from_covers natural_cut 1000 200 Hsize (length t) 0 t i)
      as (a & b & Hin & Hab); [lia | lia |].
    exists a, b. split; [exact Hin |]. split; [exact Hab |]. split.
    + unfold split_chars. apply list_elem_of_fmap.
      exists (a, b). split; [reflexivity | exact Hin].
    + rewrite chunk_of_lookup by exact Hab. exact Hc.
  - apply Hbound.
  - unfold split_text_spec. apply Forall_fmap.
    eapply Forall_impl; [apply Hbound |].
    intros chunk H. simpl. rewrite string_of_list_ascii_length. exact H.
  - reflexivity.
  - intros t' ->. reflexivity.
Qed.

Local Open Scope Z_scope.

(** * Further properties *)

(** ** Conversation buffer *)

(** X1: for a positive [max_turns], a new buffer that has received the
    turns [ts] holds the latest [2 * max_turns] of them, in the order
    added: all of them while they fit, and exactly [2 * max_turns] from
    then on. *)
Theorem conversation_buffer_holds_latest_turns :
  forall (m : Z) (ts : list Turn),
    1 <= m ->
    buffer (add_messages (new_buffer m) ts)
    = drop (length ts - Z.to_nat (2 * m)) ts
    /\ Z.of_nat (length (buffer (add_messages (new_buffer m) ts)))
       = Z.min (Z.of_nat (length ts)) (2 * m)
    /\ max_turns (add_messages (new_buffer m) ts) = m.
Proof.
  intros m ts Hm.
  rewrite add_messages_buffer by (simpl; lia). simpl.
  split; [reflexivity |]. split.
  - rewrite lastn_length. lia.
  - apply add_messages_max_turns.
Qed.

Lemma conversation_buffer_holds_latest_turns_witness :
  1 <= 1
  /\ (buffer (add_messages (new_buffer 1)
                [mkTurn "user" "a"; mkTurn "assistant" "b"; mkTurn "user" "c"])
      = drop (length [mkTurn "user" "a"; mkTurn "assistant" "b";
                      mkTurn "user" "c"] - Z.to_nat (2 * 1))
          [mkTurn "user" "a"; mkTurn "assistant" "b"; mkTurn "user" "c"]
      /\ Z.of_nat (length (buffer (add_messages (new_buffer 1)
                [mkTurn "user" "a"; mkTurn "assistant" "b"; mkTurn "user" "c"])))
         = Z.min (Z.of_nat (length [mkTurn "user" "a"; mkTurn "assistant" "b";
                                    mkTurn "user" "c"])) (2 * 1)
      /\ max_turns (add_messages (new_buffer 1)
                [mkTurn "user" "a"; mkTurn "assistant" "b"; mkTurn "user" "c"])
         = 1).
Proof.
  split; [lia |].
  apply (conversation_buffer_holds_latest_turns 1
           [mkTurn "user" "a"; mkTurn "assistant" "b"; mkTurn "user" "c"]).
  lia.
Defined.

Lemma add_message_negative_max_turns (cb : ConversationBuffer) (r c : string) :
  max_turns cb < 0 -> buffer cb = [] -> buffer (add_message cb r c) = [].
Proof.
  intros Hneg Hempty. unfold add_message, slice_from. rewrite Hempty.
  change (length ([] ++ [mkTurn r c])) with 1%nat.
  destruct (Z.gtb_spec (Z.of_nat 1) (max_turns cb * 2)) as [_ | ?]; [| lia].
  destruct (Z.ltb_spec (- max_turns cb * 2) 0) as [? | _]; [lia |].
  simpl buffer. rewrite Z.min_r by lia. reflexivity.
Qed.

(** X2: with a negative [max_turns] the buffer keeps nothing: the test
    of line 135 always holds and the slice starts past the appended turn,
    so the context stays empty whatever is added. *)
Theorem conversation_buffer_negative_max_turns_stays_empty :
  forall (m : Z) (ts : list Turn),
    m < 0 ->
    buffer (add_messages (new_buffer m) ts) = []
    /\ get_context (add_messages (new_buffer m) ts) = "".
Proof.
  intros m ts Hm.
  assert (H : forall cb, max_turns cb < 0 -> buffer cb = [] ->
                         buffer (add_messages cb ts) = []).
  { induction ts as [| t ts IH]; intros cb Hneg Hempty; [exact Hempty |].
    unfold add_messages in *. simpl. apply IH.
    - rewrite add_message_max_turns. exact Hneg.
    - apply add_message_negative_max_turns; assumption. }
  assert (Hbuf : buffer (add_messages (new_buffer m) ts) = [])
    by (apply H; [exact Hm | reflexivity]).
  split; [exact Hbuf |]. unfold get_context. rewrite Hbuf. reflexivity.
Qed.

Lemma conversation_buffer_negative_max_turns_stays_empty_witness :
  -1 < 0
  /\ (buffer (add_messages (new_buffer (-1))
                [mkTurn "user" "a"; mkTurn "assistant" "b"]) = []
      /\ get_context (add_messages (new_buffer (-1))
                        [mkTurn "user" "a"; mkTurn "assistant" "b"]) = "").
Proof.
  split; [lia |].
  apply (conversation_buffer_negative_max_turns_stays_empty (-1)
           [mkTurn "user" "a"; mkTurn "assistant" "b"]).
  lia.
Defined.

(** ** Response fetcher *)

(** X3: [safe_get_gemini_response] never raises: it returns the reply of
    [get_gemini_response], or its own apology when that function raises,
    and it writes no key of the session state. *)
Theorem safe_get_gemini_response_total :
  forall env cb prompt vs w,
    (exists reply,
        (safe_get_gemini_response env cb prompt vs w).1 = Returns reply
        /\ ((get_gemini_response env cb prompt vs w).1 = Returns reply
            \/ (reply = safe_apology
                /\ exists e,
                    (get_gemini_response env cb prompt vs w).1 = Raises e
                    /\ ui (after (safe_get_gemini_response env cb prompt vs) w)
                       = ui (after (get_gemini_response env cb prompt vs) w)
                         ++ [st_error ("An error occurred: " +:+ str_exn e
                                       +:+ ". Please try again.")])))
    /\ session (after (safe_get_gemini_response env cb prompt vs) w)
       = session w.
Proof.
  intros env cb prompt vs w. split.
  - unfold after, safe_get_gemini_response, try_except.
    destruct (get_gemini_response env cb prompt vs w) as [[reply | e] w1];
      simpl.
    + exists reply. split; [reflexivity | left; reflexivity].
    + exists safe_apology. split; [reflexivity |]. right.
      split; [reflexivity |]. exists e. split; reflexivity.
  - assert (Hkeep : keeps_session (safe_get_gemini_response env cb prompt vs)).
    { unfold safe_get_gemini_response.
      apply keeps_try_except; [apply keeps_get_gemini_response |].
      intros e. apply keeps_bind; [apply keeps_log_ui |].
      intros _. apply keeps_ret. }
    apply Hkeep.
Qed.

(** The run of [get_gemini_response] once the prompt is assembled. *)
Lemma get_gemini_response_ungrounded_run env cb prompt w :
  get_gemini_response env cb prompt None w
  = try_except
      (let* response := generate_content env
                          (ungrounded_prompt (get_context cb) prompt) in
       lift (reply_text response))
      (fun e =>
         run log_ui (st_error ("An error occurred while generating the response: "
                               +:+ str_exn e)) then
         ret apology) w.
Proof. reflexivity. Qed.

Lemma get_gemini_response_grounded_run env cb prompt vs docs w :
  env_similarity_search env vs prompt 2 = Returns docs ->
  get_gemini_response env cb prompt (Some vs) w
  = try_except
      (let* response := generate_content env
                          (grounded_prompt (get_context cb)
                             (join newline (map page_content docs)) prompt) in
       lift (reply_text response))
      (fun e =>
         run log_ui (st_error ("An error occurred while generating the response: "
                               +:+ str_exn e)) then
         ret apology)
      (after (log_call (call_similarity_search prompt 2)) w).
Proof.
  intros Hdocs.
  unfold get_gemini_response, similarity_search, after.
  unfold bind at 1. unfold bind at 1. unfold bind at 1.
  unfold log_call at 1. unfold lift at 1. rewrite Hdocs. reflexivity.
Qed.

(** X4: a failure of the LLM back end is answered by the apology, and the
    error is shown: when the retrieval, if any, has succeeded and
    [generate_content] raises, [get_gemini_response] returns the apology
    string and adds one [st.error] that quotes the exception. *)
Theorem get_gemini_response_generation_failure :
  forall env cb prompt vs w e,
    (forall p, env_generate_content env p = Raises e) ->
    match vs with
    | Some v => exists docs, env_similarity_search env v prompt 2 = Returns docs
    | None => True
    end ->
    (get_gemini_response env cb prompt vs w).1 = Returns apology
    /\ ui (after (get_gemini_response env cb prompt vs) w)
       = ui w ++ [st_error ("An error occurred while generating the response: "
                            +:+ str_exn e)].
Proof.
  intros env cb prompt vs w e Hfail Hsearch. unfold after.
  destruct vs as [v |].
  - destruct Hsearch as [docs Hdocs].
    rewrite (get_gemini_response_grounded_run env cb prompt v docs w Hdocs).
    unfold try_except, generate_content, bind, log_call, lift, log_ui, ret,
      after.
    rewrite Hfail. split; reflexivity.
  - rewrite get_gemini_response_ungrounded_run.
    unfold try_except, generate_content, bind, log_call, lift, log_ui, ret.
    rewrite Hfail. split; reflexivity.
Qed.

Lemma get_gemini_response_generation_failure_witness :
  (get_gemini_response failing_llm_env (new_buffer default_max_turns)
     "When to sow maize?" (Some sample_store) new_world).1 = Returns apology
  /\ ui (after (get_gemini_response failing_llm_env
                  (new_buffer default_max_turns) "When to sow maize?"
                  (Some sample_store)) new_world)
     = ui new_world
       ++ [st_error ("An error occurred while generating the response: "
                     +:+ str_exn (OtherError "quota exceeded"))].
Proof.
  apply (get_gemini_response_generation_failure failing_llm_env
           (new_buffer default_max_turns) "When to sow maize?"
           (Some sample_store) new_world (OtherError "quota exceeded")).
  - intros p. reflexivity.
  - eexists. reflexivity.
Defined.

Lemma hasattr_absent {A} (a : attr A) : absent a -> hasattr a = Returns false.
Proof. intros [-> | [msg ->]]; reflexivity. Qed.

Lemma part_texts_all_present (parts : list Part) (ts : list string) :
  Forall2 (fun p t => part_text p = attr_value t) parts ts ->
  part_texts parts = Returns ts.
Proof.
  induction 1 as [| p t parts ts Hp _ IH]; [reflexivity |].
  simpl. rewrite Hp, IH. reflexivity.
Qed.

Lemma part_texts_first_missing (before : list Part) (p : Part)
  (rest : list Part) :
  Forall (fun q => exists t, part_text q = attr_value t) before ->
  part_text p = attr_missing ->
  part_texts (before ++ p :: rest)
  = Raises (AttributeError (no_attribute (part_class p) "text")).
Proof.
  intros Hbefore Hp. induction Hbefore as [| q before [t Hq] _ IH]; simpl.
  - rewrite Hp. reflexivity.
  - rewrite Hq. simpl. rewrite IH. reflexivity.
Qed.



(** A part without [text] among the parts of the reply: the apology, and
    the error shown names the class of the part. *)
Lemma reply_with_broken_part_example :
  let response :=
    mkResponse "GenerateContentResponse" attr_missing
      (attr_value [mkPart "Part" (attr_value "Sow"); mkPart "Blob" attr_missing])
      (Returns "response") in
  reply_text response
  = Raises (AttributeError "'Blob' object has no attribute 'text'").
Proof. reflexivity. Qed.

(** ** Chat round *)

Lemma chat_round_run env prompt w :
  chat_round env prompt w
  = match get_gemini_response env
            (add_message (session_conversation_buffer w) "user" prompt)
            prompt (session_vectorstore w)
            (user_turn_recorded env prompt w) with
    | (Returns response, w2) =>
        (Returns tt,
         mkWorld (session_vectorstore w2) (session_last_uploaded_file w2)
                 (session_messages w2
                  ++ [mkMessage "assistant" response
                        (env_strftime env (now w2))])
                 (add_message (session_conversation_buffer w2)
                    "assistant" response)
                 (ui w2 ++ [st_chat_message "assistant"
                              (response +:+ " - "
                               +:+ env_strftime env (now w2))])
                 (trace w2) (tmpfs w2) (cwd w2) (now w2))
    | (Raises e, w2) => (Raises e, w2)
    end.
Proof.
  unfold chat_round, get_current_time, user_turn_recorded.
  cbv [bind get ret log_ui set_session_messages
         set_session_conversation_buffer].
  simpl.
  destruct (get_gemini_response env _ prompt _ _) as [[response | e] w2];
    reflexivity.
Qed.

(** X6: a chat round whose retrieval fails stops half way: it raises,
    with the user turn already shown, logged and added to the buffer, and
    no reply recorded. *)
Theorem chat_round_retrieval_failure_keeps_user_turn :
  forall env prompt w vs e,
    session_vectorstore w = Some vs ->
    env_similarity_search env vs prompt 2 = Raises e ->
    (chat_round env prompt w).1 = Raises e
    /\ session_messages (after (chat_round env prompt) w)
       = session_messages w
         ++ [mkMessage "user" prompt (env_strftime env (now w))]
    /\ session_conversation_buffer (after (chat_round env prompt) w)
       = add_message (session_conversation_buffer w) "user" prompt
    /\ ui (after (chat_round env prompt) w)
       = ui w ++ [st_chat_message "user"
                    (prompt +:+ " - " +:+ env_strftime env (now w))].
Proof.
  intros env prompt w vs e Hvs Hfail. unfold after.
  rewrite chat_round_run, Hvs.
  unfold get_gemini_response, similarity_search, bind, log_call, lift.
  rewrite Hfail. simpl. repeat split.
Qed.

Lemma chat_round_retrieval_failure_keeps_user_turn_witness :
  let w := mkWorld (Some sample_store) None [] (new_buffer default_max_turns)
             [] [] empty empty 0 in
  (chat_round failing_search_env "When to sow maize?" w).1
  = Raises (OtherError "embedding backend unavailable")
  /\ session_messages (after (chat_round failing_search_env
                                "When to sow maize?") w)
     = session_messages w
       ++ [mkMessage "user" "When to sow maize?"
             (env_strftime failing_search_env (now w))]
  /\ session_conversation_buffer (after (chat_round failing_search_env
                                           "When to sow maize?") w)
     = add_message (session_conversation_buffer w) "user" "When to sow maize?"
  /\ ui (after (chat_round failing_search_env "When to sow maize?") w)
     = ui w ++ [st_chat_message "user"
                  ("When to sow maize?" +:+ " - "
                   +:+ env_strftime failing_search_env (now w))].
Proof.
  apply (chat_round_retrieval_failure_keeps_user_turn failing_search_env
           "When to sow maize?"
           (mkWorld (Some sample_store) None [] (new_buffer default_max_turns)
              [] [] empty empty 0)
           sample_store (OtherError "embedding backend unavailable"));
    reflexivity.
Defined.

Lemma lastn_snoc {A} (n : nat) (l : list A) (x : A) :
  lastn (S n) (l ++ [x]) = lastn n l ++ [x].
Proof.
  unfold lastn. rewrite length_app. simpl.
  replace (length l + 1 - S n)%nat with (length l - n)%nat by lia.
  apply drop_app_le. lia.
Qed.

(** With a positive [max_turns], the context of a buffer ends with the
    turn just added. *)
Lemma get_context_ends_with_added_turn (cb : ConversationBuffer) (r c : string) :
  1 <= max_turns cb ->
  exists earlier,
    get_context (add_message cb r c) = earlier +:+ r +:+ ": " +:+ c.
Proof.
  intros Hm. unfold get_context.
  rewrite add_message_buffer by assumption.
  destruct (Z.to_nat (2 * max_turns cb)) as [| n] eqn:Hn; [lia |].
  rewrite lastn_snoc, map_app. simpl.
  fold (join newline (map render_turn (lastn n (buffer cb)) ++ [render_turn (mkTurn r c)])).
  rewrite join_snoc.
  destruct (map render_turn (lastn n (buffer cb))) as [| line lines].
  - exists "". reflexivity.
  - exists (join newline (line :: lines) +:+ newline).
    rewrite append_assoc. reflexivity.
Qed.

Lemma ungrounded_run_trace env cb prompt w :
  trace (after (get_gemini_response env cb prompt None) w)
  = trace w
    ++ [call_generate_content (ungrounded_prompt (get_context cb) prompt)].
Proof.
  unfold after, get_gemini_response, try_except, generate_content, bind,
    log_call, lift, log_ui, ret. simpl.
  destruct (env_generate_content env _) as [resp | e]; simpl.
  - destruct (reply_text resp); reflexivity.
  - reflexivity.
Qed.

(** X7: the user turn is added to the buffer before the model is
    asked, so with a positive [max_turns] and no vectorstore the prompt
    sent in a chat round carries the user's text twice: as the last line
    of the conversation, and as the labelled query. *)
Theorem chat_round_prompt_repeats_query :
  forall env prompt w,
    1 <= max_turns (session_conversation_buffer w) ->
    session_vectorstore w = None ->
    exists earlier,
      trace (after (chat_round env prompt) w)
      = trace w
        ++ [call_generate_content
              (base_context +:+ newline
               +:+ (earlier +:+ "user: " +:+ prompt)
               +:+ newline +:+ newline +:+ "User query: " +:+ prompt)].
Proof.
  intros env prompt w Hm Hvs.
  destruct (get_context_ends_with_added_turn
              (session_conversation_buffer w) "user" prompt Hm)
    as [earlier Hctx].
  exists earlier. unfold after. rewrite chat_round_run, Hvs.
  pose proof (ungrounded_run_trace env
                (add_message (session_conversation_buffer w) "user" prompt)
                prompt (user_turn_recorded env prompt w)) as Htrace.
  unfold after in Htrace.
  destruct (get_gemini_response env _ prompt None _) as [[response | e] w2];
    simpl in *; rewrite Htrace, Hctx; reflexivity.
Qed.

Lemma chat_round_prompt_repeats_query_witness :
  exists earlier,
    trace (after (chat_round sample_env "When to sow maize?") new_world)
    = trace new_world
      ++ [call_generate_content
            (base_context +:+ newline
             +:+ (earlier +:+ "user: " +:+ "When to sow maize?")
             +:+ newline +:+ newline +:+ "User query: "
             +:+ "When to sow maize?")].
Proof.
  apply (chat_round_prompt_repeats_query sample_env "When to sow maize?"
           new_world).
  - vm_compute. discriminate.
  - reflexivity.
Defined.

(** ** Persistence *)



(** X9: a save that fails destroys the file it was to replace:
    [open(filename, "wb")] has truncated it before [pickle.dump] raises,
    so the exception leaves a file that holds only the bytes the failed
    dump had written, whatever it held before; a later [load_vectorstore]
    raises instead of returning the index stored before, and so does the
    first statement of the next session. *)
Theorem failed_save_truncates_persisted_index :
  forall env v filename w e,
    env_pickle_dump env v = Raises e ->
    (save_vectorstore env v filename w).1 = Raises e
    /\ cwd (after (save_vectorstore env v filename) w) !! filename
       = Some (mkDiskFile (now w) (Bytes (env_pickle_flushed env v)))
    /\ (exists e',
          (load_vectorstore filename
             (after (save_vectorstore env v filename) w)).1 = Raises e')
    /\ (filename = default_filename ->
        exists e',
          (init_vectorstore false
             (new_session (after (save_vectorstore env v filename) w))).1
          = Raises e').
Proof.
  intros env v filename w e Hdump.
  unfold after, init_vectorstore, new_session, save_vectorstore, pickle_dump,
    load_vectorstore, bind, get, set_cwd, log_call, lift, ret, raise.
  rewrite Hdump. simpl.
  split; [reflexivity |]. split; [apply lookup_insert_eq |]. split.
  - rewrite lookup_insert_eq. simpl. eauto.
  - intros ->. rewrite lookup_insert_eq. simpl. eauto.
Qed.

Lemma failed_save_truncates_persisted_index_witness :
  let w := after (save_vectorstore sample_env sample_store default_filename)
             new_world in
  (load_vectorstore default_filename w).1 = Returns (Some sample_store)
  /\ ((save_vectorstore failing_dump_env sample_store default_filename w).1
      = Raises (OtherError "disk full")
      /\ cwd (after (save_vectorstore failing_dump_env sample_store
                       default_filename) w) !! default_filename
         = Some (mkDiskFile (now w)
                   (Bytes (env_pickle_flushed failing_dump_env sample_store)))
      /\ (exists e',
            (load_vectorstore default_filename
               (after (save_vectorstore failing_dump_env sample_store
                         default_filename) w)).1 = Raises e')
      /\ (default_filename = default_filename ->
          exists e',
            (init_vectorstore false
               (new_session (after (save_vectorstore failing_dump_env
                                      sample_store default_filename) w))).1
            = Raises e')).
Proof.
  split; [reflexivity |].
  apply (failed_save_truncates_persisted_index failing_dump_env sample_store
           default_filename
           (after (save_vectorstore sample_env sample_store default_filename)
              new_world)
           (OtherError "disk full")).
  reflexivity.
Defined.

(** ** Upload *)

(** What the upload branch does with the result of [process_document]. *)
Lemma handle_upload_run env file w :
  file_size file <= MAX_FILE_SIZE ->
  session_last_uploaded_file w <> Some (file_name file) ->
  handle_upload env (Some file) w
  = match process_document env file w with
    | (Returns (Some v), w1) =>
        (run set_session_vectorstore (Some v) then
         run save_vectorstore env v default_filename then
         run set_session_last_uploaded_file (Some (file_name file)) then
         log_ui (st_success "Document processed and saved successfully!")) w1
    | (Returns None, w1) =>
        log_ui (st_warning "Document processing failed. Please check the error message above.") w1
    | (Raises e, w1) => (Raises e, w1)
    end.
Proof.
  intros Hsize Hlast. unfold handle_upload.
  destruct (Z.gtb_spec (file_size file) MAX_FILE_SIZE) as [? | _]; [lia |].
  unfold bind at 1. unfold get at 1.
  rewrite bool_decide_eq_false_2 by assumption.
  unfold bind at 1.
  destruct (process_document env file w) as [[[v |] | e] w1]; reflexivity.
Qed.



(** X11: an upload is recognised by its name only.  Once a file name is
    recorded as processed, an upload under that name is skipped, whatever
    it contains: nothing is read, no call is made, and the session, the
    temporary files and the directory stay as they were. *)
Theorem upload_under_recorded_name_is_skipped :
  forall env file w,
    file_size file <= MAX_FILE_SIZE ->
    session_last_uploaded_file w = Some (file_name file) ->
    (handle_upload env (Some file) w).1 = Returns tt
    /\ session (after (handle_upload env (Some file)) w) = session w
    /\ trace (after (handle_upload env (Some file)) w) = trace w
    /\ tmpfs (after (handle_upload env (Some file)) w) = tmpfs w
    /\ cwd (after (handle_upload env (Some file)) w) = cwd w
    /\ ui (after (handle_upload env (Some file)) w)
       = ui w ++ [st_info "Document already processed. Using existing vectorstore."].
Proof.
  intros env file w Hsize Hlast. unfold after, handle_upload.
  destruct (Z.gtb_spec (file_size file) MAX_FILE_SIZE) as [? | _]; [lia |].
  unfold bind, get.
  rewrite bool_decide_eq_true_2 by assumption.
  repeat split.
Qed.

Lemma upload_under_recorded_name_is_skipped_witness :
  let changed := mkUpload "guide.txt" 12 [Returns "Beans first."] in
  let w := after (handle_upload sample_env (Some guide_txt)) new_world in
  session_vectorstore w = Some (mkStore ["Maize needs nitrogen."] [[1; 0]])
  /\ ((handle_upload sample_env (Some changed) w).1 = Returns tt
      /\ session (after (handle_upload sample_env (Some changed)) w) = session w
      /\ trace (after (handle_upload sample_env (Some changed)) w) = trace w
      /\ tmpfs (after (handle_upload sample_env (Some changed)) w) = tmpfs w
      /\ cwd (after (handle_upload sample_env (Some changed)) w) = cwd w
      /\ ui (after (handle_upload sample_env (Some changed)) w)
         = ui w ++ [st_info "Document already processed. Using existing vectorstore."]).
Proof.
  split; [vm_compute; reflexivity |].
  apply (upload_under_recorded_name_is_skipped sample_env
           (mkUpload "guide.txt" 12 [Returns "Beans first."])
           (after (handle_upload sample_env (Some guide_txt)) new_world)).
  - vm_compute. discriminate.
  - vm_compute. reflexivity.
Defined.

(** X12: when the save of a new index fails, the upload branch raises
    with the session half updated: the new index is already the active
    vectorstore, the file name is not recorded (so the same upload is
    processed again on the next run), and the persisted file holds only
    the bytes that the failed dump had written. *)
Theorem upload_with_failed_save_is_half_done :
  forall env file w idx e,
    file_size file <= MAX_FILE_SIZE ->
    session_last_uploaded_file w <> Some (file_name file) ->
    (process_document env file w).1 = Returns (Some idx) ->
    env_pickle_dump env idx = Raises e ->
    (handle_upload env (Some file) w).1 = Raises e
    /\ session_vectorstore (after (handle_upload env (Some file)) w)
       = Some idx
    /\ session_last_uploaded_file (after (handle_upload env (Some file)) w)
       = session_last_uploaded_file w
    /\ payload <$> (cwd (after (handle_upload env (Some file)) w)
                    !! default_filename)
       = Some (Bytes (env_pickle_flushed env idx)).
Proof.
  intros env file w idx e Hsize Hlast Hidx Hdump. unfold after.
  rewrite handle_upload_run by assumption.
  pose proof (keeps_process_document env file w) as Hkeep.
  destruct (process_document env file w) as [r w1]. simpl in Hidx. subst r.
  unfold session in Hkeep. simpl in Hkeep. injection Hkeep as _ Hl _ _.
  unfold save_vectorstore, pickle_dump, bind, get, set_cwd, log_call, lift,
    ret, raise, set_session_vectorstore, set_session_last_uploaded_file,
    log_ui.
  rewrite Hdump. simpl. rewrite lookup_insert_eq. repeat split. exact Hl.
Qed.

Lemma upload_with_failed_save_is_half_done_witness :
  (handle_upload failing_dump_env (Some guide_txt) new_world).1
  = Raises (OtherError "disk full")
  /\ session_vectorstore (after (handle_upload failing_dump_env
                                   (Some guide_txt)) new_world)
     = Some (mkStore ["Maize needs nitrogen."] [[1; 0]])
  /\ session_last_uploaded_file
       (after (handle_upload failing_dump_env (Some guide_txt)) new_world)
     = session_last_uploaded_file new_world
  /\ payload <$> (cwd (after (handle_upload failing_dump_env (Some guide_txt))
                         new_world) !! default_filename)
     = Some (Bytes (env_pickle_flushed failing_dump_env
                      (mkStore ["Maize needs nitrogen."] [[1; 0]]))).
Proof.
  apply (upload_with_failed_save_is_half_done failing_dump_env guide_txt
           new_world (mkStore ["Maize needs nitrogen."] [[1; 0]])
           (OtherError "disk full")).
  - vm_compute. discriminate.
  - discriminate.
  - vm_compute. reflexivity.
  - reflexivity.
Defined.



(** ** Temporary files *)

Lemma keeps_tmpfs_ret {A} (a : A) : keeps_tmpfs (ret a).
Proof. intros w. reflexivity. Qed.

Lemma keeps_tmpfs_raise {A} (e : exn) : keeps_tmpfs (@raise A e).
Proof. intros w. reflexivity. Qed.

Lemma keeps_tmpfs_lift {A} (r : outcome A) : keeps_tmpfs (lift r).
Proof. intros w. reflexivity. Qed.

Lemma keeps_tmpfs_get {A} (proj : World -> A) : keeps_tmpfs (get proj).
Proof. intros w. reflexivity. Qed.

Lemma keeps_tmpfs_log_ui (e : ui_event) : keeps_tmpfs (log_ui e).
Proof. intros w. reflexivity. Qed.

Lemma keeps_tmpfs_log_call (c : call) : keeps_tmpfs (log_call c).
Proof. intros w. reflexivity. Qed.

Lemma keeps_tmpfs_bind {A B} (m : M A) (f : A -> M B) :
  keeps_tmpfs m -> (forall a, keeps_tmpfs (f a)) -> keeps_tmpfs (bind m f).
Proof.
  intros Hm Hf w. unfold after, bind.
  specialize (Hm w). unfold after in Hm.
  destruct (m w) as [[a | e] w1]; simpl in *.
  - rewrite <- Hm. apply (Hf a w1).
  - exact Hm.
Qed.

Lemma keeps_tmpfs_try_except {A} (m : M A) (h : exn -> M A) :
  keeps_tmpfs m -> (forall e, keeps_tmpfs (h e)) ->
  keeps_tmpfs (try_except m h).
Proof.
  intros Hm Hh w. unfold after, try_except.
  specialize (Hm w). unfold after in Hm.
  destruct (m w) as [[a | e] w1]; simpl in *.
  - exact Hm.
  - rewrite <- Hm. apply (Hh e w1).
Qed.

Create HintDb files.
#[local] Hint Resolve keeps_tmpfs_ret keeps_tmpfs_raise keeps_tmpfs_lift
  keeps_tmpfs_get keeps_tmpfs_log_ui keeps_tmpfs_log_call : files.
#[local] Hint Extern 2 (keeps_tmpfs (bind _ _)) =>
  apply keeps_tmpfs_bind; [| intros ?] : files.
#[local] Hint Extern 2 (keeps_tmpfs (try_except _ _)) =>
  apply keeps_tmpfs_try_except; [| intros ?] : files.
#[local] Hint Extern 3 (keeps_tmpfs (match ?x with _ => _ end)) =>
  destruct x : files.
#[local] Hint Extern 3 (keeps_tmpfs (if ?x then _ else _)) =>
  destruct x : files.

Lemma keeps_tmpfs_build_index env chunks starts acc :
  keeps_tmpfs (build_index env chunks starts acc).
Proof.
  revert acc. induction starts as [| i rest IH]; intros acc; simpl.
  - auto with files.
  - apply keeps_tmpfs_bind; [| intros vs; apply IH].
    unfold from_texts, add_texts. auto 20 with files.
Qed.

#[local] Hint Resolve keeps_tmpfs_build_index : files.

(** Parsing, splitting and indexing write no temporary file, and neither
    do the handlers. *)
Lemma keeps_tmpfs_guarded_ingest env file path :
  keeps_tmpfs (try_except (ingest env file path) ingestion_handlers).
Proof.
  unfold ingest, parse_upload, index_texts, process_pdf, read_temp,
    ingestion_handlers.
  auto 40 with files.
Qed.

Lemma keeps_tmpfs_ingestion_handlers e : keeps_tmpfs (ingestion_handlers e).
Proof. unfold ingestion_handlers. auto 20 with files. Qed.

Lemma finally_world {A} (m : M A) (fin : M unit) w :
  after (finally m fin) w = after fin (after m w).
Proof.
  unfold after, finally. destruct (m w) as [r w1]. simpl.
  destruct (fin w1) as [[u | e] w2]; reflexivity.
Qed.

(** The copy loop writes the file it is given and no other. *)
Lemma copy_upload_other path reads q :
  q <> path ->
  forall w, tmpfs (after (copy_upload path reads) w) !! q = tmpfs w !! q.
Proof.
  intros Hne. induction reads as [| r rest IH]; intros w; [reflexivity |].
  unfold after in *. destruct r as [chunk | e].
  - rewrite copy_upload_returns.
    destruct (nonempty chunk); [| reflexivity].
    rewrite IH. unfold after. simpl.
    apply lookup_insert_ne. congruence.
  - rewrite copy_upload_raises. reflexivity.
Qed.

Lemma copy_upload_keeps_file path reads :
  forall w,
    is_Some (tmpfs w !! path) ->
    is_Some (tmpfs (after (copy_upload path reads) w) !! path).
Proof.
  induction reads as [| r rest IH]; intros w Hfile; [exact Hfile |].
  unfold after in *. destruct r as [chunk | e].
  - rewrite copy_upload_returns.
    destruct (nonempty chunk); [| exact Hfile].
    apply IH. unfold after. simpl. rewrite lookup_insert_eq. eauto.
  - rewrite copy_upload_raises. exact Hfile.
Qed.

Lemma spool_upload_other env file w path q :
  env_NamedTemporaryFile env (env_splitext env (file_name file)) = Returns path ->
  q <> path ->
  tmpfs (after (spool_upload env file) w) !! q = tmpfs w !! q.
Proof.
  intros Htemp Hne. unfold after. rewrite spool_upload_unfold. cbv zeta.
  rewrite Htemp.
  match goal with
  | |- context [copy_upload path ?r ?w0] =>
      pose proof (copy_upload_other path r q Hne w0) as Hcopy
  end.
  unfold after in Hcopy.
  destruct (copy_upload path _ _) as [[[] | e] w1]; simpl in *;
    rewrite Hcopy; apply lookup_insert_ne; congruence.
Qed.

Lemma spool_upload_keeps_file env file w path :
  env_NamedTemporaryFile env (env_splitext env (file_name file)) = Returns path ->
  is_Some (tmpfs (after (spool_upload env file) w) !! path).
Proof.
  intros Htemp. unfold after. rewrite spool_upload_unfold. cbv zeta.
  rewrite Htemp.
  match goal with
  | |- context [copy_upload path ?r ?w0] =>
      pose proof (copy_upload_keeps_file path r w0) as Hcopy
  end.
  unfold after in Hcopy.
  destruct (copy_upload path _ _) as [[[] | e] w1]; simpl in *;
    apply Hcopy; rewrite lookup_insert_eq; eauto.
Qed.

(** [process_document] once the upload is in its temporary file. *)
Lemma process_document_spooled env file w path w1 :
  file_size file <= MAX_FILE_SIZE ->
  spool_upload env file w = (Returns path, w1) ->
  process_document env file w
  = finally (try_except (ingest env file path) ingestion_handlers)
      (remove_temp env (Some path)) w1.
Proof.
  intros Hsize Hspool. unfold process_document.
  destruct (Z.gtb_spec (file_size file) MAX_FILE_SIZE) as [? | _]; [lia |].
  rewrite Hspool. reflexivity.
Qed.

(** X14: the temporary file does not outlive [process_document].  Once
    the upload has been copied, the file is removed on every path
    (unsupported format, parser or embedding failure, success) when
    [os.unlink] succeeds; when [os.unlink] raises, the file stays and a
    warning is shown.  No other temporary file is touched. *)
Theorem process_document_removes_its_temporary_file :
  forall env file w path data,
    file_size file <= MAX_FILE_SIZE ->
    env_NamedTemporaryFile env (env_splitext env (file_name file))
    = Returns path ->
    nonempty path = true ->
    upload_bytes (file_reads file) = Returns data ->
    match env_unlink env path with
    | Returns _ => tmpfs (after (process_document env file) w) !! path = None
    | Raises e =>
        tmpfs (after (process_document env file) w) !! path = Some data
        /\ exists shown,
            ui (after (process_document env file) w)
            = shown ++ [st_warning ("Could not remove temporary file: "
                                    +:+ str_exn e)]
    end
    /\ (forall q, q <> path ->
                  tmpfs (after (process_document env file) w) !! q
                  = tmpfs w !! q).
Proof.
  intros env file w path data Hsize Htemp Hpath Hbytes.
  destruct (spool_upload_spec env file w) as (w1 & _ & Hspool).
  rewrite Htemp, Hbytes in Hspool. destruct Hspool as [Hspool Hfile].
  pose proof (spool_upload_other env file w path) as Hother.
  unfold after in Hother. rewrite Hspool in Hother. simpl in Hother.
  unfold after at 1 2 3 4.
  rewrite (process_document_spooled env file w path w1 Hsize Hspool).
  fold (after (finally (try_except (ingest env file path) ingestion_handlers)
                 (remove_temp env (Some path))) w1).
  rewrite finally_world.
  pose proof (keeps_tmpfs_guarded_ingest env file path w1) as Hkeep.
  set (w2 := after (try_except (ingest env file path) ingestion_handlers) w1)
    in *.
  assert (Hfile2 : tmpfs w2 !! path = Some data) by (rewrite Hkeep; exact Hfile).
  unfold after, remove_temp, bind, get. simpl.
  rewrite Hpath, Hfile2.
  rewrite bool_decide_eq_true_2 by eauto. simpl.
  unfold try_except, bind, log_call, lift, set_tmpfs, log_ui. simpl.
  destruct (env_unlink env path) as [[] | e]; simpl.
  - split; [apply lookup_delete_eq |].
    intros q Hne. rewrite lookup_delete_ne by congruence.
    rewrite Hkeep. apply Hother; [exact Htemp | exact Hne].
  - split; [split; [exact Hfile2 | eauto] |].
    intros q Hne. rewrite Hkeep. apply Hother; [exact Htemp | exact Hne].
Qed.

Lemma process_document_removes_its_temporary_file_witness :
  tmpfs (after (process_document sample_env guide_txt) new_world)
  !! "/tmp/tmpk3v9.txt" = None
  /\ (forall q, q <> "/tmp/tmpk3v9.txt" ->
                tmpfs (after (process_document sample_env guide_txt) new_world)
                !! q = tmpfs new_world !! q).
Proof.
  apply (process_document_removes_its_temporary_file sample_env guide_txt
           new_world "/tmp/tmpk3v9.txt" "Maize needs nitrogen.").
  - vm_compute. discriminate.
  - reflexivity.
  - reflexivity.
  - reflexivity.
Defined.

(** X15: a read of the upload that fails leaves the temporary file
    behind.  [temp_file_path] is assigned by the last statement of the
    [with] block, so when [file.read] raises the [finally] clause has no
    path to remove: [process_document] returns [None] and the file
    created for the upload still exists. *)
Theorem failed_read_leaves_temporary_file :
  forall env file w path e,
    file_size file <= MAX_FILE_SIZE ->
    env_NamedTemporaryFile env (env_splitext env (file_name file))
    = Returns path ->
    upload_bytes (file_reads file) = Raises e ->
    (process_document env file w).1 = Returns None
    /\ is_Some (tmpfs (after (process_document env file) w) !! path).
Proof.
  intros env file w path e Hsize Htemp Hbytes.
  destruct (spool_upload_spec env file w) as (w1 & _ & Hspool).
  rewrite Htemp, Hbytes in Hspool.
  pose proof (spool_upload_keeps_file env file w path Htemp) as Hfile.
  unfold after in *. rewrite Hspool in Hfile. simpl in Hfile.
  unfold process_document.
  destruct (Z.gtb_spec (file_size file) MAX_FILE_SIZE) as [? | _]; [lia |].
  rewrite Hspool. split.
  - rewrite finally_result by apply never_raises_remove_temp.
    apply ingestion_handlers_return.
  - fold (after (finally (ingestion_handlers e) (remove_temp env None)) w1).
    rewrite finally_world. unfold after at 1. simpl.
    fold (after (ingestion_handlers e) w1).
    rewrite keeps_tmpfs_ingestion_handlers. exact Hfile.
Qed.

Lemma failed_read_leaves_temporary_file_witness :
  (process_document sample_env broken_txt new_world).1 = Returns None
  /\ is_Some (tmpfs (after (process_document sample_env broken_txt) new_world)
              !! "/tmp/tmpk3v9.txt").
Proof.
  apply (failed_read_leaves_temporary_file sample_env broken_txt new_world
           "/tmp/tmpk3v9.txt" (OtherError "connection reset")).
  - vm_compute. discriminate.
  - reflexivity.
  - reflexivity.
Defined.

(** The bytes of a sequence of non-empty chunks, one after the other. *)
Lemma upload_bytes_chunks (cs : list string) (tail : list (outcome string)) :
  Forall (fun c => nonempty c = true) cs ->
  (tail = [] \/ exists rest, tail = Returns "" :: rest) ->
  upload_bytes (map Returns cs ++ tail)
  = Returns (foldr String.append "" cs).
Proof.
  intros Hcs Htail. induction Hcs as [| c cs Hc _ IH]; simpl.
  - destruct Htail as [-> | [rest ->]]; reflexivity.
  - rewrite Hc, IH. reflexivity.
Qed.



(** ** The batches of the index build *)

Lemma build_index_trace env chunks starts :
  forall acc w,
    Forall (fun i => embeds env (batch_at chunks i)) starts ->
    trace (after (build_index env chunks starts acc) w)
    = trace w
      ++ match acc with
         | None => build_calls (map (batch_at chunks) starts)
         | Some _ => map call_add_texts (map (batch_at chunks) starts)
         end.
Proof.
  induction starts as [| i rest IH]; intros acc w Hall.
  - unfold after. simpl. destruct acc; rewrite app_nil_r; reflexivity.
  - apply Forall_cons in Hall as [[vectors Hembed] Hall].
    unfold after in *. rewrite build_index_cons. cbv zeta. rewrite Hembed.
    rewrite IH by exact Hall. unfold after. simpl.
    destruct acc; rewrite <- app_assoc; reflexivity.
Qed.

Lemma range_step_below (n : nat) (i : nat) :
  i ∈ range_step n batch_size -> (i < n)%nat.
Proof.
  unfold range_step. intros Hin.
  apply list_elem_of_fmap in Hin as (j & -> & Hj).
  apply elem_of_seq in Hj.
  pose proof batch_size_pos as Hb.
  pose proof (Nat.div_mod (n + batch_size - 1) batch_size ltac:(lia)) as Hdm.
  pose proof (Nat.mod_upper_bound (n + batch_size - 1) batch_size ltac:(lia))
    as Hr.
  revert Hj Hdm Hr.
  generalize ((n + batch_size - 1) / batch_size)%nat
             ((n + batch_size - 1) mod batch_size)%nat.
  intros q r Hj Hdm Hr. nia.
Qed.

(** X17: the index is built from consecutive batches of the chunk list.
    Every batch holds between 1 and 1000 chunks, the batches put end to
    end are the chunk list, and when the embedding back end answers for
    each of them the build calls [FAISS.from_texts] on the first batch
    and [add_texts] on each of the others, in order. *)
Theorem build_index_batches :
  forall env (chunks : list string) w,
    let batches :=
      map (batch_at chunks) (range_step (length chunks) batch_size) in
    Forall (embeds env) batches ->
    concat batches = chunks
    /\ Forall (fun batch => (1 <= length batch <= 1000)%nat) batches
    /\ trace (after (build_index env chunks
                       (range_step (length chunks) batch_size) None) w)
       = trace w ++ build_calls batches.
Proof.
  intros env chunks w batches Hall. subst batches.
  split; [apply concat_batches |]. split.
  - apply Forall_fmap, Forall_forall. intros i Hin.
    apply range_step_below in Hin. simpl.
    rewrite batch_at_eq, length_take, length_drop.
    change batch_size with 1000%nat. lia.
  - apply (build_index_trace env chunks _ None w).
    apply Forall_forall. intros i Hi.
    rewrite Forall_forall in Hall. apply Hall.
    apply list_elem_of_fmap. exists i. split; [reflexivity | exact Hi].
Qed.

Lemma build_index_batches_witness :
  let chunks := ["Maize needs nitrogen."; "Beans fix nitrogen."] in
  let batches :=
    map (batch_at chunks) (range_step (length chunks) batch_size) in
  concat batches = chunks
  /\ Forall (fun batch => (1 <= length batch <= 1000)%nat) batches
  /\ trace (after (build_index sample_env chunks
                     (range_step (length chunks) batch_size) None) new_world)
     = trace new_world ++ build_calls batches.
Proof.
  apply (build_index_batches sample_env
           ["Maize needs nitrogen."; "Beans fix nitrogen."] new_world).
  repeat constructor; eexists; reflexivity.
Defined.

(** ** Housekeeping *)

(** A sweep changes nothing but the directory; the clock in particular
    is the same afterwards. *)
Lemma sweep_now env m t names :
  forall w, now (after (sweep env m t names) w) = now w.
Proof.
  induction names as [| filename rest IH]; intros w; [reflexivity |].
  unfold after in *. rewrite sweep_step.
  destruct (cwd w !! filename) as [f |].
  - destruct (swept m t filename f); [| apply IH].
    destruct (env_remove env filename) as [[] | e]; [| reflexivity].
    rewrite IH. reflexivity.
  - destruct (_ && _); [reflexivity | apply IH].
Qed.

(** X18: a sweep only removes, and a sweep that has returned leaves
    nothing to do.  When a sweep of a listed directory returns, the
    directory it leaves is part of the one it found, and a second sweep
    made at the same time with the same threshold returns too and leaves
    the directory as the first one did. *)
Theorem cleanup_old_vectorstores_idempotent :
  forall env max_age_days w,
    lists_directory env (cwd w) ->
    lists_directory env
      (cwd (after (cleanup_old_vectorstores env max_age_days) w)) ->
    (cleanup_old_vectorstores env max_age_days w).1 = Returns tt ->
    cwd (after (cleanup_old_vectorstores env max_age_days) w) ⊆ cwd w
    /\ (cleanup_old_vectorstores env max_age_days
          (after (cleanup_old_vectorstores env max_age_days) w)).1
       = Returns tt
    /\ cwd (after (cleanup_old_vectorstores env max_age_days)
              (after (cleanup_old_vectorstores env max_age_days) w))
       = cwd (after (cleanup_old_vectorstores env max_age_days) w).
Proof.
  intros env max_age_days w Hlist Hlist' Hret.
  pose proof (cleanup_returns_removals env max_age_days w Hlist Hret) as Hrm.
  assert (Hnow : now (after (cleanup_old_vectorstores env max_age_days) w)
                 = now w).
  { unfold after. rewrite cleanup_old_vectorstores_run. apply sweep_now. }
  assert (Hleft : forall name f,
             cwd (after (cleanup_old_vectorstores env max_age_days) w) !! name
             = Some f ->
             swept max_age_days (now w) name f = false).
  { intros name f.
    destruct (cleanup_lookup env max_age_days w name Hlist Hrm) as [_ ->].
    destruct (cwd w !! name) as [g |]; [| discriminate].
    destruct (swept max_age_days (now w) name g) eqn:Hs; [discriminate |].
    intros [= <-]. exact Hs. }
  split.
  - unfold after. rewrite cleanup_old_vectorstores_run. apply sweep_subseteq.
  - set (w' := after (cleanup_old_vectorstores env max_age_days) w) in *.
    assert (Hrm' : removals_succeed env max_age_days (now w') (cwd w')).
    { intros name f Hf Hs. rewrite Hnow, (Hleft name f Hf) in Hs.
      discriminate. }
    split.
    + apply (cleanup_lookup env max_age_days w' default_filename Hlist' Hrm').
    + apply map_eq. intros name.
      destruct (cleanup_lookup env max_age_days w' name Hlist' Hrm')
        as [_ ->].
      destruct (cwd w' !! name) as [f |] eqn:Hf; [| reflexivity].
      rewrite Hnow, (Hleft name f Hf). reflexivity.
Qed.

Lemma cleanup_old_vectorstores_idempotent_witness :
  cwd (after (cleanup_old_vectorstores sample_env default_max_age_days)
         swept_world) !! "vectorstore_a.pkl" = None
  /\ (cwd (after (cleanup_old_vectorstores sample_env default_max_age_days)
             swept_world) ⊆ cwd swept_world
      /\ (cleanup_old_vectorstores sample_env default_max_age_days
            (after (cleanup_old_vectorstores sample_env default_max_age_days)
               swept_world)).1
         = Returns tt
      /\ cwd (after (cleanup_old_vectorstores sample_env default_max_age_days)
                (after (cleanup_old_vectorstores sample_env
                          default_max_age_days) swept_world))
         = cwd (after (cleanup_old_vectorstores sample_env
                         default_max_age_days) swept_world)).
Proof.
  split; [vm_compute; reflexivity |].
  apply (cleanup_old_vectorstores_idempotent sample_env default_max_age_days
           swept_world).
  - unfold lists_directory. reflexivity.
  - unfold lists_directory. reflexivity.
  - vm_compute. reflexivity.
Defined.

(** X22: a larger threshold never removes more.  When a sweep of a
    listed directory with the threshold [m1] returns, a sweep made at the
    same time with a threshold [m2 >= m1] returns too, and every file
    that the first one keeps is kept by the second. *)
Theorem cleanup_old_vectorstores_monotone :
  forall env m1 m2 w,
    m1 <= m2 ->
    lists_directory env (cwd w) ->
    (cleanup_old_vectorstores env m1 w).1 = Returns tt ->
    (cleanup_old_vectorstores env m2 w).1 = Returns tt
    /\ cwd (after (cleanup_old_vectorstores env m1) w)
       ⊆ cwd (after (cleanup_old_vectorstores env m2) w).
Proof.
  intros env m1 m2 w Hle Hlist Hret.
  pose proof (cleanup_returns_removals env m1 w Hlist Hret) as Hrm1.
  assert (Hweaker : forall name f,
             swept m2 (now w) name f = true -> swept m1 (now w) name f = true).
  { intros name f Hs. apply swept_iff in Hs as (Hp & Hs & Hold).
    apply swept_iff. split; [exact Hp |]. split; [exact Hs |].
    unfold microseconds_per_day in *. lia. }
  assert (Hrm2 : removals_succeed env m2 (now w) (cwd w)).
  { intros name f Hf Hs. apply (Hrm1 name f Hf). apply Hweaker. exact Hs. }
  split; [apply (cleanup_lookup env m2 w default_filename Hlist Hrm2) |].
  apply map_subseteq_spec. intros name f.
  destruct (cleanup_lookup env m1 w name Hlist Hrm1) as [_ ->].
  destruct (cleanup_lookup env m2 w name Hlist Hrm2) as [_ ->].
  destruct (cwd w !! name) as [g |]; [| discriminate].
  destruct (swept m1 (now w) name g) eqn:H1; [discriminate |].
  intros Hf. destruct (swept m2 (now w) name g) eqn:H2; [| exact Hf].
  rewrite (Hweaker name g H2) in H1. discriminate.
Qed.

Lemma cleanup_old_vectorstores_monotone_witness :
  cwd (after (cleanup_old_vectorstores sample_env 2) swept_world)
  !! "vectorstore_b.pkl" = None
  /\ cwd (after (cleanup_old_vectorstores sample_env 5) swept_world)
     !! "vectorstore_b.pkl"
     = Some (mkDiskFile (4 * microseconds_per_day) (Bytes ""))
  /\ ((cleanup_old_vectorstores sample_env 5 swept_world).1 = Returns tt
      /\ cwd (after (cleanup_old_vectorstores sample_env 2) swept_world)
         ⊆ cwd (after (cleanup_old_vectorstores sample_env 5) swept_world)).
Proof.
  split; [vm_compute; reflexivity |]. split; [vm_compute; reflexivity |].
  apply (cleanup_old_vectorstores_monotone sample_env 2 5 swept_world).
  - lia.
  - unfold lists_directory. reflexivity.
  - vm_compute. reflexivity.
Defined.

(** ** Export *)

Lemma message_paragraph_run env (m : Message) :
  message_paragraph env m
  = match env_paragraph_markup env (labelled m) with
    | Returns _ => Returns (Paragraph (labelled m) (style_of m))
    | Raises e => Raises e
    end.
Proof.
  unfold message_paragraph, make_paragraph, labelled, style_of.
  destruct (String.eqb (msg_role m) "user"); reflexivity.
Qed.

Lemma export_loop_returns env (messages : list Message) :
  forall story,
    Forall (fun m => env_paragraph_markup env (labelled m) = Returns tt)
      messages ->
    export_loop env story messages
    = Returns (story ++ flat_map message_flowables messages).
Proof.
  induction messages as [| m rest IH]; intros story Hall; simpl.
  - rewrite app_nil_r. reflexivity.
  - apply Forall_cons in Hall as [Hm Hall].
    rewrite message_paragraph_run, Hm, (IH _ Hall), <- !app_assoc.
    reflexivity.
Qed.

Lemma export_loop_raises env (before : list Message) (m : Message)
  (rest : list Message) (e : exn) :
  forall story,
    Forall (fun m => env_paragraph_markup env (labelled m) = Returns tt)
      before ->
    env_paragraph_markup env (labelled m) = Raises e ->
    export_loop env story (before ++ m :: rest) = Raises e.
Proof.
  intros story Hbefore Hm. revert story.
  induction Hbefore as [| b before Hb _ IH]; intros story; simpl.
  - rewrite message_paragraph_run, Hm. reflexivity.
  - rewrite message_paragraph_run, Hb. apply IH.
Qed.

Lemma export_loop_accepted env (messages : list Message) :
  forall story result,
    export_loop env story messages = Returns result ->
    Forall (fun m => env_paragraph_markup env (labelled m) = Returns tt)
      messages.
Proof.
  induction messages as [| m rest IH]; intros story result Hrun;
    [constructor |].
  simpl in Hrun. rewrite message_paragraph_run in Hrun.
  destruct (env_paragraph_markup env (labelled m)) as [[] | e] eqn:Hm;
    [| discriminate].
  constructor; [exact Hm | apply (IH _ _ Hrun)].
Qed.

Lemma paragraph_texts_flowables (messages : list Message) :
  paragraph_texts (flat_map message_flowables messages) = map labelled messages.
Proof.
  induction messages as [| m rest IH]; [reflexivity |].
  change (paragraph_texts (flat_map message_flowables (m :: rest)))
    with (labelled m :: paragraph_texts (flat_map message_flowables rest)).
  rewrite IH. reflexivity.
Qed.

Lemma length_flowables (messages : list Message) :
  length (flat_map message_flowables messages) = (2 * length messages)%nat.
Proof.
  induction messages as [| m rest IH]; [reflexivity |]. simpl. rewrite IH. lia.
Qed.

(** X19: the story of the exported PDF follows the message log, when
    there is one.  [Paragraph] parses its text as markup: when the parser
    accepts the labelled text of every message, the story holds, for each
    message in order, one paragraph followed by one spacer, the paragraph
    of a message of the role "user" being labelled "You: " in the style
    "You" and that of any other role "AgroPro: " in the style "AgroPro".
    The first message whose text the parser refuses ends the export with
    the exception of the parser; a story is built in no other case. *)
Theorem export_story_follows_the_log :
  forall env messages,
    (Forall (fun m => env_paragraph_markup env (labelled m) = Returns tt)
       messages ->
     export_story env messages
     = Returns (flat_map
                  (fun m => [Paragraph (labelled m) (style_of m); Spacer 1 12])
                  messages))
    /\ (forall before m rest e,
          messages = before ++ m :: rest ->
          Forall (fun m => env_paragraph_markup env (labelled m) = Returns tt)
            before ->
          env_paragraph_markup env (labelled m) = Raises e ->
          export_story env messages = Raises e)
    /\ (forall story,
          export_story env messages = Returns story ->
          Forall (fun m => env_paragraph_markup env (labelled m) = Returns tt)
            messages
          /\ length story = (2 * length messages)%nat
          /\ paragraph_texts story = map labelled messages)
    /\ (forall m,
          labelled m
          = (if String.eqb (msg_role m) "user" then "You: " else "AgroPro: ")
            +:+ msg_content m).
Proof.
  intros env messages. split; [| split; [| split]].
  - intros Hall. unfold export_story.
    rewrite (export_loop_returns env messages [] Hall). reflexivity.
  - intros before m rest e -> Hbefore Hm.
    apply (export_loop_raises env before m rest e [] Hbefore Hm).
  - intros story Hrun.
    pose proof (export_loop_accepted env messages [] story Hrun) as Hall.
    unfold export_story in Hrun.
    rewrite (export_loop_returns env messages [] Hall) in Hrun.
    injection Hrun as <-. simpl.
    split; [exact Hall |].
    split; [apply length_flowables | apply paragraph_texts_flowables].
  - intros m. unfold labelled.
    destruct (String.eqb (msg_role m) "user"); reflexivity.
Qed.

Lemma export_story_follows_the_log_witness :
  export_story strict_markup_env sample_log
  = Returns [Paragraph "You: When to sow maize?" "You"; Spacer 1 12;
             Paragraph "AgroPro: Sow in May." "AgroPro"; Spacer 1 12;
             Paragraph "AgroPro: Welcome back." "AgroPro"; Spacer 1 12]
  /\ export_story strict_markup_env
       (sample_log ++ mkMessage "user" "use <b>bold" "12:01" :: sample_log)
     = Raises (OtherError "Parse error: saw </para> instead of expected </b>").
Proof.
  split.
  - apply (proj1 (export_story_follows_the_log strict_markup_env sample_log)).
    repeat constructor.
  - apply (proj1 (proj2 (export_story_follows_the_log strict_markup_env
                           (sample_log
                            ++ mkMessage "user" "use <b>bold" "12:01"
                               :: sample_log)))
             sample_log (mkMessage "user" "use <b>bold" "12:01") sample_log
             (OtherError "Parse error: saw </para> instead of expected </b>")).
    + reflexivity.
    + repeat constructor.
    + reflexivity.
Defined.

(** ** Session management *)

Lemma apply_record_keys (s : Session) (r : record) :
  keys (apply_record s r) = keys s.
Proof. destruct r; reflexivity. Qed.

Lemma apply_records_keys (rs : list record) (s : Session) :
  keys (apply_records s rs) = keys s.
Proof.
  revert s. induction rs as [| r rs IH]; intros s; [reflexivity |].
  unfold apply_records in *. simpl. rewrite IH. apply apply_record_keys.
Qed.

Lemma apply_record_messages (s : Session) (r : record) (l : list Message) :
  shown_messages s = Some l ->
  shown_messages (apply_record s r) = Some (l ++ [record_message r]).
Proof.
  unfold shown_messages. intros Hl.
  destruct r; simpl; rewrite lookup_alter_eq, Hl; reflexivity.
Qed.

Lemma apply_records_messages (rs : list record) (s : Session)
  (l : list Message) :
  shown_messages s = Some l ->
  shown_messages (apply_records s rs) = Some (l ++ map record_message rs).
Proof.
  revert s l. induction rs as [| r rs IH]; intros s l Hl.
  - simpl. rewrite app_nil_r. exact Hl.
  - unfold apply_records in *. simpl.
    rewrite (IH _ (l ++ [record_message r])).
    + rewrite <- app_assoc. reflexivity.
    + apply apply_record_messages. exact Hl.
Qed.

Lemma apply_record_buffer (s : Session) (r : record)
  (cb : ConversationBuffer) :
  shown_buffer s = Some cb ->
  shown_buffer (apply_record s r)
  = Some (add_message cb (role (record_turn r)) (content (record_turn r))).
Proof.
  unfold shown_buffer. intros Hcb.
  destruct r; simpl; rewrite lookup_alter_eq, Hcb; reflexivity.
Qed.

Lemma apply_records_buffer (rs : list record) (s : Session)
  (cb : ConversationBuffer) :
  shown_buffer s = Some cb ->
  shown_buffer (apply_records s rs)
  = Some (add_messages cb (map record_turn rs)).
Proof.
  revert s cb. induction rs as [| r rs IH]; intros s cb Hcb; [exact Hcb |].
  unfold apply_records, add_messages in *. simpl.
  apply IH. apply apply_record_buffer. exact Hcb.
Qed.

(** X20: "Load Last Session" does not bring back the conversation that
    "Save Chat Session" saved.  The save stores the list and the buffer
    by reference, and the later rounds extend these very objects: after
    a save, any rounds and a load, the session is exactly what it was
    before the load, and the messages and the buffer shown are those of
    the save with all that came after added. *)
Theorem load_last_session_restores_nothing :
  forall (s : Session) (rs : list record) (l : list Message)
         (cb : ConversationBuffer),
    shown_messages s = Some l ->
    shown_buffer s = Some cb ->
    let saved := (save_chat_session s).2 in
    let later := apply_records saved rs in
    (load_last_session later).2 = later
    /\ (load_last_session later).1
       = st_success "Session loaded successfully!"
    /\ shown_messages (load_last_session later).2
       = Some (l ++ map record_message rs)
    /\ shown_buffer (load_last_session later).2
       = Some (add_messages cb (map record_turn rs)).
Proof.
  intros s rs l cb Hl Hcb. cbv zeta.
  set (saved := (save_chat_session s).2).
  assert (Hkeys : keys (apply_records saved rs) = keys saved)
    by apply apply_records_keys.
  assert (Hload : load_last_session (apply_records saved rs)
                  = (st_success "Session loaded successfully!",
                     apply_records saved rs)).
  { unfold load_last_session. rewrite Hkeys. simpl.
    destruct (apply_records saved rs) as [h k]. simpl in Hkeys.
    rewrite Hkeys. reflexivity. }
  rewrite Hload. simpl. split; [reflexivity |]. split; [reflexivity |].
  split.
  - apply apply_records_messages. exact Hl.
  - apply apply_records_buffer. exact Hcb.
Qed.

Lemma load_last_session_restores_nothing_witness :
  let rs := [record_user "When to sow maize?" "12:01";
             record_assistant "After the first rains." "12:01"] in
  let saved := (save_chat_session sample_session).2 in
  let later := apply_records saved rs in
  (load_last_session later).2 = later
  /\ (load_last_session later).1 = st_success "Session loaded successfully!"
  /\ shown_messages (load_last_session later).2
     = Some ([mkMessage "user" "hello" "12:00"] ++ map record_message rs)
  /\ shown_buffer (load_last_session later).2
     = Some (add_messages
               (add_message (new_buffer default_max_turns) "user" "hello")
               (map record_turn rs)).
Proof.
  apply (load_last_session_restores_nothing sample_session
           [record_user "When to sow maize?" "12:01";
            record_assistant "After the first rains." "12:01"]
           [mkMessage "user" "hello" "12:00"]
           (add_message (new_buffer default_max_turns) "user" "hello"));
    reflexivity.
Defined.

(** Without a saved session, "Load Last Session" changes nothing and
    warns. *)
Lemma load_without_save_example :
  load_last_session sample_session
  = (st_warning "No saved session found.", sample_session).
Proof. reflexivity. Qed.

(** X21: without a vectorstore a chat round always completes.  It
    returns, the log has grown by the user message and one reply, the
    buffer has received both turns, and the keys "vectorstore" and
    "last_uploaded_file" are untouched; when the LLM back end raises, the
    reply recorded is the apology. *)
Theorem chat_round_without_vectorstore_completes :
  forall env prompt w,
    session_vectorstore w = None ->
    exists reply,
      (chat_round env prompt w).1 = Returns tt
      /\ (get_gemini_response env
            (add_message (session_conversation_buffer w) "user" prompt)
            prompt None (user_turn_recorded env prompt w)).1 = Returns reply
      /\ (forall e,
            env_generate_content env
              (ungrounded_prompt
                 (get_context
                    (add_message (session_conversation_buffer w) "user" prompt))
                 prompt) = Raises e ->
            reply = apology)
      /\ map msg_content (session_messages (after (chat_round env prompt) w))
         = map msg_content (session_messages w) ++ [prompt; reply]
      /\ map msg_role (session_messages (after (chat_round env prompt) w))
         = map msg_role (session_messages w) ++ ["user"; "assistant"]
      /\ session_conversation_buffer (after (chat_round env prompt) w)
         = add_message
             (add_message (session_conversation_buffer w) "user" prompt)
             "assistant" reply
      /\ session_vectorstore (after (chat_round env prompt) w) = None
      /\ session_last_uploaded_file (after (chat_round env prompt) w)
         = session_last_uploaded_file w.
Proof.
  intros env prompt w Hvs. unfold after.
  rewrite chat_round_run, Hvs.
  set (cb := add_message (session_conversation_buffer w) "user" prompt).
  set (w1 := user_turn_recorded env prompt w).
  destruct (ungrounded_never_raises env cb prompt w1) as [reply Hreply].
  pose proof (keeps_get_gemini_response env cb prompt None w1) as Hkeep.
  assert (Hapology : forall e,
             env_generate_content env
               (ungrounded_prompt (get_context cb) prompt) = Raises e ->
             reply = apology).
  { intros e He. revert Hreply.
    unfold get_gemini_response, try_except, generate_content, bind,
      log_call, lift, log_ui, ret. simpl. rewrite He. simpl. congruence. }
  destruct (get_gemini_response env cb prompt None w1) as [r w2].
  simpl in Hreply. subst r. unfold session in Hkeep. simpl in Hkeep.
  injection Hkeep as Hv Hl Hm Hb.
  exists reply. simpl. rewrite Hm, Hb, Hv, Hl.
  split; [reflexivity |]. split; [reflexivity |]. split; [exact Hapology |].
  rewrite !map_app, <- !app_assoc. simpl.
  repeat split. exact Hvs.
Qed.

Lemma chat_round_without_vectorstore_completes_witness :
  exists reply,
    (chat_round failing_llm_env "When to sow maize?" new_world).1 = Returns tt
    /\ (get_gemini_response failing_llm_env
          (add_message (session_conversation_buffer new_world) "user"
             "When to sow maize?")
          "When to sow maize?" None
          (user_turn_recorded failing_llm_env "When to sow maize?" new_world)).1
       = Returns reply
    /\ (forall e,
          env_generate_content failing_llm_env
            (ungrounded_prompt
               (get_context
                  (add_message (session_conversation_buffer new_world) "user"
                     "When to sow maize?"))
               "When to sow maize?") = Raises e ->
          reply = apology)
    /\ map msg_content
         (session_messages (after (chat_round failing_llm_env
                                     "When to sow maize?") new_world))
       = map msg_content (session_messages new_world)
         ++ ["When to sow maize?"; reply]
    /\ map msg_role
         (session_messages (after (chat_round failing_llm_env
                                     "When to sow maize?") new_world))
       = map msg_role (session_messages new_world) ++ ["user"; "assistant"]
    /\ session_conversation_buffer
         (after (chat_round failing_llm_env "When to sow maize?") new_world)
       = add_message
           (add_message (session_conversation_buffer new_world) "user"
              "When to sow maize?")
           "assistant" reply
    /\ session_vectorstore
         (after (chat_round failing_llm_env "When to sow maize?") new_world)
       = None
    /\ session_last_uploaded_file
         (after (chat_round failing_llm_env "When to sow maize?") new_world)
       = session_last_uploaded_file new_world.
Proof.
  apply (chat_round_without_vectorstore_completes failing_llm_env
           "When to sow maize?" new_world).
  reflexivity.
Defined.

(** ** Error reports of the ingestion *)

Lemma ingestion_handlers_ui e w :
  ui (after (ingestion_handlers e) w) = ui w ++ ingestion_report e.
Proof.
  destruct e; unfold after, ingestion_handlers, bind, log_ui, ret; simpl;
    rewrite <- ?app_assoc; reflexivity.
Qed.

Lemma remove_temp_quiet env path w :
  env_unlink env path = Returns tt ->
  ui (after (remove_temp env (Some path)) w) = ui w.
Proof.
  intros Hunlink. unfold after, remove_temp, bind, get. simpl.
  destruct (nonempty path && _); [| reflexivity].
  unfold try_except, bind, log_call, lift, set_tmpfs, log_ui.
  rewrite Hunlink. reflexivity.
Qed.

(** X23: a failure of the parser is reported and ends the ingestion.
    When the parser chosen for the upload raises, [process_document]
    returns [None] and shows exactly the report of the handler: the
    missing-dependency messages for an [ImportError], and for any other
    exception one error that quotes it. *)
Theorem parser_failure_is_reported :
  forall env file w path data e,
    file_size file <= MAX_FILE_SIZE ->
    env_NamedTemporaryFile env (env_splitext env (file_name file))
    = Returns path ->
    upload_bytes (file_reads file) = Returns data ->
    parser_result env (file_name file) data = Some (Raises e) ->
    env_unlink env path = Returns tt ->
    (process_document env file w).1 = Returns None
    /\ ui (after (process_document env file) w)
       = ui w ++ ingestion_report e.
Proof.
  intros env file w path data e Hsize Htemp Hbytes Hparse Hunlink.
  destruct (spool_upload_spec env file w) as (w1 & Hui1 & Hspool).
  rewrite Htemp, Hbytes in Hspool. destruct Hspool as [Hspool Hfile].
  destruct (ingest_spec env file path data w1 Hfile) as (w2 & Hingest).
  rewrite Hparse in Hingest. destruct Hingest as [Hingest Hui2].
  unfold after.
  rewrite (process_document_spooled env file w path w1 Hsize Hspool).
  split.
  - rewrite finally_result by apply never_raises_remove_temp.
    unfold try_except. rewrite Hingest. apply ingestion_handlers_return.
  - fold (after (finally (try_except (ingest env file path) ingestion_handlers)
                   (remove_temp env (Some path))) w1).
    rewrite finally_world, remove_temp_quiet by exact Hunlink.
    unfold after, try_except. rewrite Hingest.
    fold (after (ingestion_handlers e) w2).
    rewrite ingestion_handlers_ui, Hui2, Hui1. reflexivity.
Qed.

Lemma parser_failure_is_reported_witness :
  (process_document failing_parser_env guide_txt new_world).1 = Returns None
  /\ ui (after (process_document failing_parser_env guide_txt) new_world)
     = ui new_world
       ++ ingestion_report (OtherError "'utf-8' codec can't decode byte").
Proof.
  apply (parser_failure_is_reported failing_parser_env guide_txt new_world
           "/tmp/tmpk3v9.txt" "Maize needs nitrogen."
           (OtherError "'utf-8' codec can't decode byte")).
  - vm_compute. discriminate.
  - reflexivity.
  - reflexivity.
  - reflexivity.
  - reflexivity.
Defined.
